(** * Verification of the chat widget and the MVP front-end forms

    Shallow embedding of
    - [src/chatbot/static/js/app.js] (conversation history, message
      formatting, the submit handler),
    - [src/mvp/frontend/src/components/AppealAnalysis.jsx],
      [ProtocolSearch.jsx] and [AppealSearch.jsx] (form validation, input
      coercion, lookup handling, excerpt rendering),
    together with the parts of the retrieval core that the repository keeps
    on the server side and that are described only by the specification
    (index lookup by protocol, outcome aggregation, cross-reference join).

    JavaScript strings are sequences of UTF-16 code units; here a string is a
    list of [ascii], that is the code units 0..255.  JavaScript numbers are
    modelled by the type [JS.number] below. *)

From Stdlib Require Import ZArith QArith Qabs List Ascii String Bool Lia.
From Stdlib Require Import DecimalString.
From stdpp Require Import base list gmap strings.
Import ListNotations.

Local Open Scope Z_scope.

(* ===================================================================== *)
(** ** The JavaScript built-ins used by the sources                       *)
(* ===================================================================== *)

Module JS.

(** A string value: list of code units. *)
Definition str : Type := list ascii.

(** Literal of the source text. *)
Definition lit (s : string) : str := list_ascii_of_string s.

(** The last [n] elements of a list, in their order. *)
Definition lastn {A} (n : nat) (l : list A) : list A :=
  drop (length l - n)%nat l.

(** [Array.prototype.slice(start)] with the end omitted.  A negative
    [start] counts from the end and is clamped at the first element; a
    non-negative one is clamped at the length.  [-0] is [0]. *)
Definition slice_from {A} (start : Z) (l : list A) : list A :=
  let len := Z.of_nat (length l) in
  let k := if start <? 0 then Z.max (len + start) 0 else Z.min start len in
  drop (Z.to_nat k) l.

(** [String.prototype.substring(0, n)] for a non-negative integer [n]. *)
Definition substring0 (n : nat) (s : str) : str := take n s.

(** *** Strings *)

Definition code (c : ascii) : nat := nat_of_ascii c.

(** White space and line terminators among the code units 0..255:
    TAB, LF, VT, FF, CR, SP and NBSP. *)
Definition is_whitespace (c : ascii) : bool :=
  match code c with
  | 9%nat | 10%nat | 11%nat | 12%nat | 13%nat | 32%nat | 160%nat => true
  | _ => false
  end.

(** The characters that [.] of a regular expression does not match. *)
Definition is_line_terminator (c : ascii) : bool :=
  match code c with
  | 10%nat | 13%nat => true
  | _ => false
  end.

Fixpoint take_while {A} (p : A -> bool) (l : list A) : list A :=
  match l with
  | x :: tl => if p x then x :: take_while p tl else []
  | [] => []
  end.

Fixpoint drop_while {A} (p : A -> bool) (l : list A) : list A :=
  match l with
  | x :: tl => if p x then drop_while p tl else l
  | [] => []
  end.

Definition trimStart (s : str) : str := drop_while is_whitespace s.
Definition trimEnd (s : str) : str := rev (drop_while is_whitespace (rev s)).
(** [String.prototype.trim]. *)
Definition trim (s : str) : str := trimEnd (trimStart s).

Definition ascii_eqb (a b : ascii) : bool := Ascii.eqb a b.

Fixpoint startsWith (prefix s : str) : bool :=
  match prefix, s with
  | [], _ => true
  | p :: ps, c :: cs => ascii_eqb p c && startsWith ps cs
  | _ :: _, [] => false
  end.

(** [String.prototype.includes]. *)
Fixpoint includes (s needle : str) : bool :=
  startsWith needle s ||
  match s with
  | [] => false
  | _ :: tl => includes tl needle
  end.

(** A string is truthy when it is not empty. *)
Definition str_truthy (s : str) : bool :=
  match s with [] => false | _ => true end.

(** *** Numbers *)

(** A number is NaN, an infinity, or finite; a finite number is given by
    its exact value (both zeros have value 0). *)
Inductive number := NaN | NegInf | PosInf | Fin (q : Q).
Arguments Fin q%_Q.

Definition Qlt_bool (p q : Q) : bool := negb (Qle_bool q p).

(** [a < b]; every comparison with NaN is false. *)
Definition lt (a b : number) : bool :=
  match a, b with
  | NaN, _ | _, NaN => false
  | _, NegInf => false
  | NegInf, _ => true
  | PosInf, _ => false
  | Fin _, PosInf => true
  | Fin p, Fin q => Qlt_bool p q
  end.

(** [a > b]. *)
Definition gt (a b : number) : bool := lt b a.

(** Truthiness of a number: NaN and the zeros are falsy. *)
Definition truthy (a : number) : bool :=
  match a with
  | NaN => false
  | Fin q => negb (Qeq_bool q 0)
  | _ => true
  end.

(** [a || d] on numbers. *)
Definition or_default (a d : number) : number := if truthy a then a else d.

Definition is_digit (c : ascii) : bool :=
  (48 <=? code c)%nat && (code c <=? 57)%nat.

Definition is_hex_digit (c : ascii) : bool :=
  is_digit c
  || ((65 <=? code c)%nat && (code c <=? 70)%nat)
  || ((97 <=? code c)%nat && (code c <=? 102)%nat).

Definition digit_value (c : ascii) : Z :=
  if is_digit c then Z.of_nat (code c - 48)
  else if (97 <=? code c)%nat then Z.of_nat (code c - 87)
  else Z.of_nat (code c - 55).

(** Value of a digit string in radix [r]. *)
Definition radix_value (r : Z) (ds : str) : Z :=
  fold_left (fun acc d => acc * r + digit_value d) ds 0.

(** Optional sign: is it negative, and what follows. *)
Definition strip_sign (s : str) : bool * str :=
  match s with
  | c :: tl =>
      if ascii_eqb c "-" then (true, tl)
      else if ascii_eqb c "+" then (false, tl)
      else (false, s)
  | [] => (false, s)
  end.

Section Parsing.
(** The Number value for a mathematical value (rounding to the nearest
    double, with overflow to an infinity); left abstract. *)
Variable to_number : Q -> number.

Definition signed (neg : bool) (q : Q) : Q := if neg then (- q)%Q else q.

(** [parseInt(s)] with the radix omitted. *)
Definition parseInt (s : str) : number :=
  let '(neg, s1) := strip_sign (trimStart s) in
  let '(radix, s2) :=
    match s1 with
    | z :: x :: tl =>
        if ascii_eqb z "0" && (ascii_eqb x "x" || ascii_eqb x "X")
        then (16, tl) else (10, s1)
    | _ => (10, s1)
    end in
  let ds := take_while (if radix =? 16 then is_hex_digit else is_digit) s2 in
  match ds with
  | [] => NaN
  | _ => to_number (signed neg (inject_Z (radix_value radix ds)))
  end.

(** Exponent part [e[+-]digits], when it is complete. *)
Definition exponent_part (s : str) : Z :=
  match s with
  | e :: tl =>
      if ascii_eqb e "e" || ascii_eqb e "E" then
        let '(eneg, s1) := strip_sign tl in
        match take_while is_digit s1 with
        | [] => 0
        | ds => if eneg then - radix_value 10 ds else radix_value 10 ds
        end
      else 0
  | [] => 0
  end.

(** [parseFloat(s)]: the longest prefix of the trimmed string that is a
    decimal literal ([Infinity], or digits with an optional fraction and
    an optional exponent). *)
Definition parseFloat (s : str) : number :=
  let '(neg, s1) := strip_sign (trimStart s) in
  if startsWith (lit "Infinity") s1 then (if neg then NegInf else PosInf)
  else
    let ip := take_while is_digit s1 in
    let r1 := drop_while is_digit s1 in
    let '(fp, r2) :=
      match r1 with
      | dot :: tl =>
          if ascii_eqb dot "."
          then (take_while is_digit tl, drop_while is_digit tl)
          else ([], r1)
      | [] => ([], r1)
      end in
    match ip ++ fp with
    | [] => NaN
    | ds =>
        let e := exponent_part r2 in
        to_number (signed neg
          (inject_Z (radix_value 10 ds)
           * Qpower 10 (e - Z.of_nat (length fp)))%Q)
    end.
End Parsing.

(** No number starts the string: after the leading white space and an
    optional sign comes the end, or a character that is no digit. *)
Definition lacks_integer (s : str) : bool :=
  match snd (strip_sign (trimStart s)) with
  | [] => true
  | c :: _ => negb (is_digit c)
  end.

(** The same for a decimal literal, which may also start with a point or
    be [Infinity]. *)
Definition lacks_decimal (s : str) : bool :=
  match snd (strip_sign (trimStart s)) with
  | [] => true
  | c :: _ => negb (is_digit c || ascii_eqb c "." || ascii_eqb c "I")
  end.

End JS.

(* ===================================================================== *)
(** ** app.js: configuration and conversation history                    *)
(* ===================================================================== *)

Module Chat.
Import JS.

(** [CONFIG] (API_BASE is the page origin and plays no role below). *)
Record config := {
  MAX_MESSAGE_LENGTH : Z;
  HISTORY_LIMIT : Z
}.

Definition CONFIG : config :=
  {| MAX_MESSAGE_LENGTH := 500; HISTORY_LIMIT := 10 |}.

Inductive role := user | assistant.

(** One entry of [state.history]: [{ role, content }]. *)
Record turn := { t_role : role; t_content : str }.

(** Number of entries [addToHistory] keeps: [CONFIG.HISTORY_LIMIT * 2]. *)
Definition window (cfg : config) : nat := Z.to_nat (HISTORY_LIMIT cfg * 2).

(** [addToHistory(role, content)] as a function on [state.history]:
    push, then cut to the last [HISTORY_LIMIT * 2] entries when longer. *)
Definition addToHistory (cfg : config) (history : list turn)
    (r : role) (content : str) : list turn :=
  let pushed := history ++ [ {| t_role := r; t_content := content |} ] in
  if HISTORY_LIMIT cfg * 2 <? Z.of_nat (length pushed)
  then slice_from (- HISTORY_LIMIT cfg * 2) pushed
  else pushed.

(** Appending a sequence of turns, one [addToHistory] call each. *)
Definition appendAll (cfg : config) (history : list turn) (ts : list turn)
    : list turn :=
  fold_left (fun h t => addToHistory cfg h (t_role t) (t_content t)) ts history.

(** The JSON body built by [sendMessageToAPI(message, history)]. *)
Record chat_request := {
  rq_message : str;
  rq_history : list turn;
  rq_k : Z
}.

Definition sendMessageToAPI_body (cfg : config) (message : str)
    (history : list turn) : chat_request :=
  {| rq_message := message;
     rq_history := slice_from (- HISTORY_LIMIT cfg) history;
     rq_k := 5 |}.

(** *** Message formatting *)

(** [escapeHtml(text)]: the text is stored as the text content of a fresh
    element and read back as its [innerHTML]; serialising a text node
    replaces [&], the no-break space, [<] and [>]. *)
Definition escape_char (c : ascii) : str :=
  if ascii_eqb c "&" then lit "&amp;"
  else if (code c =? 160)%nat then lit "&nbsp;"
  else if ascii_eqb c "<" then lit "&lt;"
  else if ascii_eqb c ">" then lit "&gt;"
  else [c].

Definition escapeHtml (text : str) : str := flat_map escape_char text.

(** A regular expression is given by what it matches at the start of a
    string: the captured group and the rest of the string after the match.
    [replace_loop] is [String.prototype.replace] with a global expression:
    the leftmost match is replaced, the search resumes after it, and a
    character where nothing matches is copied. *)
Definition matcher : Type := str -> option (str * str).

Fixpoint replace_loop (fuel : nat) (m : matcher) (template : str -> str)
    (s : str) : str :=
  match s with
  | [] => []
  | c :: tl =>
      match fuel with
      | O => s
      | S fuel' =>
          match m s with
          | Some (group, rest) => template group ++ replace_loop fuel' m template rest
          | None => c :: replace_loop fuel' m template tl
          end
      end
  end.

Definition replace_all (m : matcher) (template : str -> str) (s : str) : str :=
  replace_loop (length s) m template s.

(** [(.*?)] followed by a closing [**]: the shortest run of characters
    other than line terminators that reaches a [**]. *)
Fixpoint lazy_until_stars (s : str) : option (str * str) :=
  match s with
  | [] => None
  | c :: tl =>
      match (if ascii_eqb c "*" then
               match tl with
               | c2 :: rest => if ascii_eqb c2 "*" then Some rest else None
               | [] => None
               end
             else None) with
      | Some rest => Some ([], rest)
      | None =>
          if is_line_terminator c then None
          else match lazy_until_stars tl with
               | Some (g, rest) => Some (c :: g, rest)
               | None => None
               end
      end
  end.

(** [(.*?)] followed by a closing [*]. *)
Fixpoint lazy_until_star (s : str) : option (str * str) :=
  match s with
  | [] => None
  | c :: tl =>
      if ascii_eqb c "*" then Some ([], tl)
      else if is_line_terminator c then None
      else match lazy_until_star tl with
           | Some (g, rest) => Some (c :: g, rest)
           | None => None
           end
  end.

(** [/\*\*(.*?)\*\*/] *)
Definition match_bold : matcher := fun s =>
  match s with
  | a :: b :: tl =>
      if ascii_eqb a "*" && ascii_eqb b "*" then lazy_until_stars tl else None
  | _ => None
  end.

(** [/\*(.*?)\*/] *)
Definition match_italic : matcher := fun s =>
  match s with
  | a :: tl => if ascii_eqb a "*" then lazy_until_star tl else None
  | [] => None
  end.

Definition not_backtick (c : ascii) : bool := negb (ascii_eqb c "`").

(** [/`([^`]+)`/] *)
Definition match_code : matcher := fun s =>
  match s with
  | a :: tl =>
      if ascii_eqb a "`" then
        match take_while not_backtick tl, drop_while not_backtick tl with
        | g :: gs, _ :: rest => Some (g :: gs, rest)
        | _, _ => None
        end
      else None
  | [] => None
  end.

(** [/\n/] *)
Definition match_newline : matcher := fun s =>
  match s with
  | a :: tl => if (code a =? 10)%nat then Some ([], tl) else None
  | [] => None
  end.

Definition wrap (tag : string) (group : str) : str :=
  lit ("<" ++ tag ++ ">") ++ group ++ lit ("</" ++ tag ++ ">").

(** [formatMessage(content)] *)
Definition formatMessage (content : str) : str :=
  replace_all match_newline (fun _ => lit "<br>")
    (replace_all match_code (wrap "code")
      (replace_all match_italic (wrap "em")
        (replace_all match_bold (wrap "strong")
          (escapeHtml content)))).

(** *** Session state and the submit handler *)

(** One rendered message of the transcript ([addMessage]). *)
Record message_view := {
  mv_html : str;
  mv_isUser : bool;
  mv_isError : bool
}.

(** [state] together with the parts of the page the handler touches. *)
Record state := {
  history : list turn;
  isLoading : bool;
  messageInput : str;
  controlsEnabled : bool;
  messages : list message_view;
  sourcesActive : bool;
  sourcesList : list str
}.

(** The parsed reply of [/chat]: [answer] may be absent. *)
Record response := {
  answer : option str;
  rsp_sources : list str
}.

(** How [sendMessageToAPI] ends: with the reply, or by throwing. *)
Inductive api_outcome :=
  | Replied (r : response)
  | Threw (message : str).

Definition addMessage (content : str) (isUser isError : bool) (st : state)
    : state :=
  {| history := history st;
     isLoading := isLoading st;
     messageInput := messageInput st;
     controlsEnabled := controlsEnabled st;
     messages := messages st ++
       [ {| mv_html := formatMessage content;
            mv_isUser := isUser; mv_isError := isError |} ];
     sourcesActive := sourcesActive st;
     sourcesList := sourcesList st |}.

Definition showError (message : str) (st : state) : state :=
  addMessage message false true st.

Definition set_history (h : list turn) (st : state) : state :=
  {| history := h;
     isLoading := isLoading st;
     messageInput := messageInput st;
     controlsEnabled := controlsEnabled st;
     messages := messages st;
     sourcesActive := sourcesActive st;
     sourcesList := sourcesList st |}.

Definition renderSources (srcs : list str) (st : state) : state :=
  {| history := history st;
     isLoading := isLoading st;
     messageInput := messageInput st;
     controlsEnabled := controlsEnabled st;
     messages := messages st;
     sourcesActive := match srcs with [] => false | _ => true end;
     sourcesList := match srcs with [] => sourcesList st | _ => srcs end |}.

Definition getErrorMessage (message : str) : str :=
  if includes message (lit "timeout")
  then lit "A requisição demorou muito para responder. Tente novamente."
  else if includes message (lit "HTTP error")
  then lit "Erro de comunicação com o servidor. (" ++ message ++ lit ")"
  else lit "Ocorreu um erro inesperado. Tente novamente mais tarde.".

(** [handleFormSubmit], up to the call of [sendMessageToAPI]: the new
    state and the request that was started, if any. *)
Definition handleFormSubmit_start (cfg : config) (st : state)
    : state * option chat_request :=
  let message := trim (messageInput st) in
  if negb (str_truthy message) || isLoading st then (st, None)
  else
    let st1 := addMessage message true false st in
    let h := addToHistory cfg (history st1) user message in
    let st2 :=
      {| history := h;
         isLoading := true;
         messageInput := [];
         controlsEnabled := false;
         messages := messages st1;
         sourcesActive := sourcesActive st1;
         sourcesList := sourcesList st1 |} in
    (st2, Some (sendMessageToAPI_body cfg message h)).

(** [handleFormSubmit] from the moment the awaited call ends: the [try]
    body or the [catch], then the [finally]. *)
Definition handleFormSubmit_finish (cfg : config) (st : state)
    (o : api_outcome) : state :=
  let st1 :=
    match o with
    | Replied r =>
        let st' :=
          match answer r with
          | Some (c :: a) =>
              let st'' := addMessage (c :: a) false false st in
              set_history
                (addToHistory cfg (history st'') assistant (c :: a)) st''
          | _ => showError (lit "Desculpe, não consegui gerar uma resposta.") st
          end in
        renderSources (rsp_sources r) st'
    | Threw message => showError (getErrorMessage message) st
    end in
  {| history := history st1;
     isLoading := false;
     messageInput := messageInput st1;
     controlsEnabled := true;
     messages := messages st1;
     sourcesActive := sourcesActive st1;
     sourcesList := sourcesList st1 |}.

(** A session: the page state and the requests that were sent and have
    not been answered yet. *)
Record session := {
  ui : state;
  in_flight : list chat_request
}.

Inductive event :=
  | SetInput (v : str)          (* typing, or an example button *)
  | Submit                      (* form submit, Ctrl+Enter, example button *)
  | Settle (o : api_outcome).   (* the pending call returns or throws *)

Definition set_input (v : str) (st : state) : state :=
  {| history := history st;
     isLoading := isLoading st;
     messageInput := v;
     controlsEnabled := controlsEnabled st;
     messages := messages st;
     sourcesActive := sourcesActive st;
     sourcesList := sourcesList st |}.

Inductive step (cfg : config) : session -> event -> session -> Prop :=
  | step_input s v :
      step cfg s (SetInput v)
        {| ui := set_input v (ui s); in_flight := in_flight s |}
  | step_submit s :
      step cfg s Submit
        {| ui := fst (handleFormSubmit_start cfg (ui s));
           in_flight := in_flight s ++
             match snd (handleFormSubmit_start cfg (ui s)) with
             | Some rq => [rq]
             | None => []
             end |}
  | step_settle s rq rest o :
      in_flight s = rq :: rest ->
      step cfg s (Settle o)
        {| ui := handleFormSubmit_finish cfg (ui s) o; in_flight := rest |}.

(** The page after [init]: the history read from storage, nothing pending. *)
Definition initial (loaded : list turn) : session :=
  {| ui := {| history := loaded; isLoading := false; messageInput := [];
              controlsEnabled := true; messages := [];
              sourcesActive := false; sourcesList := [] |};
     in_flight := [] |}.

Inductive reachable (cfg : config) (loaded : list turn) : session -> Prop :=
  | reach_init : reachable cfg loaded (initial loaded)
  | reach_step s e s' :
      reachable cfg loaded s -> step cfg s e s' -> reachable cfg loaded s'.

(** *** What a rendered message may contain *)

Definition entities : list str :=
  [lit "&amp;"; lit "&nbsp;"; lit "&lt;"; lit "&gt;"].

Definition format_tags : list str :=
  [lit "<strong>"; lit "</strong>"; lit "<em>"; lit "</em>";
   lit "<code>"; lit "</code>"; lit "<br>"].

(** A character that is not special in HTML text. *)
Definition plain_char (c : ascii) : bool :=
  negb (ascii_eqb c "<" || ascii_eqb c ">" || ascii_eqb c "&").

(** [built_from pieces s]: [s] is a sequence of plain characters and of
    whole pieces. *)
Inductive built_from (pieces : list str) : str -> Prop :=
  | bf_nil : built_from pieces []
  | bf_char c s :
      plain_char c = true -> built_from pieces s -> built_from pieces (c :: s)
  | bf_piece p s :
      In p pieces -> built_from pieces s -> built_from pieces (p ++ s).

(** Everything a rendered message is made of, besides plain characters. *)
Definition pieces : list str := entities ++ format_tags.

(** Either nothing is pending and the page is idle, or exactly one request
    is pending, the page is loading, and the newest entry of the history is
    the user turn of that request. *)
Definition serialized (s : session) : Prop :=
  (isLoading (ui s) = false /\ in_flight s = [])
  \/ (isLoading (ui s) = true /\
      exists rq older,
        in_flight s = [rq]
        /\ history (ui s) =
           older ++ [ {| t_role := user; t_content := rq_message rq |} ]).

(** Every user turn of a history has an assistant turn right behind it. *)
Definition every_user_turn_answered (h : list turn) : Prop :=
  forall i m,
    h !! i = Some {| t_role := user; t_content := m |} ->
    exists a, h !! S i = Some {| t_role := assistant; t_content := a |}.

(** A reply without a usable answer: [response.answer] is falsy. *)
Definition no_answer (o : api_outcome) : Prop :=
  match o with
  | Replied r => answer r = None \/ answer r = Some []
  | Threw _ => True
  end.

(** Turns for the examples: user and assistant in alternation. *)
Definition sample_turns (n : nat) : list turn :=
  map (fun i => {| t_role := if Nat.even i then user else assistant;
                   t_content := [ascii_of_nat (48 + i mod 10)] |})
      (seq 0 n).

(** The characters that the four expressions of [formatMessage] consume. *)
Definition is_delim (c : ascii) : bool :=
  ascii_eqb c "*" || ascii_eqb c "`" || (code c =? 10)%nat.

(** [rewrites s o]: [o] is [s] with some runs of delimiters replaced by
    tags of the formatter and every other character kept in place. *)
Inductive rewrites : str -> str -> Prop :=
  | rw_nil : rewrites [] []
  | rw_keep c s o : rewrites s o -> rewrites (c :: s) (c :: o)
  | rw_tag d ds t s o :
      is_delim d = true ->
      Forall (fun c => is_delim c = true) ds ->
      In t format_tags ->
      rewrites s o ->
      rewrites (d :: ds ++ s) (t ++ o).

(** A piece is not empty and holds no delimiter, and an angle bracket
    only in front. *)
Definition piece_ok (p : str) : bool :=
  match p with
  | [] => false
  | c :: tl =>
      forallb (fun x => negb (is_delim x)) p
      && forallb (fun x => negb (ascii_eqb x "<")) tl
  end.

(** A match consumes at least one character. *)
Definition shrinking (m : matcher) : Prop :=
  forall s g rest, m s = Some (g, rest) -> (length rest < length s)%nat.

(** Replacing a match only turns delimiters into tags. *)
Definition tags_only (m : matcher) (template : str -> str) : Prop :=
  forall s g rest, m s = Some (g, rest) ->
    forall o, rewrites rest o -> rewrites s (template g ++ o).

End Chat.

(* ===================================================================== *)
(** ** The forms of the MVP front end                                    *)
(* ===================================================================== *)

(** Messages shown by [react-toastify]. *)
Inductive toast :=
  | ToastError (msg : JS.str)
  | ToastSuccess (msg : JS.str)
  | ToastInfo (msg : JS.str).

(** What [renderExpandableText] returns: the plain text, or the shown
    text with the label of the button that toggles it. *)
Inductive expandable :=
  | Span (text : JS.str)
  | WithToggle (shown : JS.str) (label : JS.str).

(** The text a rendering puts on the page. *)
Definition shown_text (r : expandable) : JS.str :=
  match r with Span t => t | WithToggle t _ => t end.

(** The body shared by the two components that declare
    [renderExpandableText]; an absent entry of [expandedResponses] is
    falsy. *)
Definition renderExpandableText_body (expandedResponses : gmap JS.str bool)
    (text appealId : JS.str) (maxLength : nat) : expandable :=
  let isExpanded := default false (expandedResponses !! appealId) in
  let shouldTruncate := (maxLength <? length text)%nat in
  if negb shouldTruncate then Span text
  else WithToggle
         (if isExpanded then text
          else JS.substring0 maxLength text ++ JS.lit "...")
         (if isExpanded then JS.lit "Ver menos" else JS.lit "Ver mais").

Definition toggleResponseExpansion (appealId : JS.str)
    (prev : gmap JS.str bool) : gmap JS.str bool :=
  <[appealId := negb (default false (prev !! appealId))]> prev.

(** What a rendering of [text] under the bound [maxLength] may be: the
    whole text when it fits; otherwise, collapsed, the first [maxLength]
    characters followed by the marker, and, expanded, the whole text. *)
Definition marked_excerpt (isExpanded : bool) (text : JS.str)
    (maxLength : nat) (r : expandable) : Prop :=
  ((length text <= maxLength)%nat /\ r = Span text)
  \/ ((maxLength < length text)%nat /\
      ((isExpanded = false /\
        r = WithToggle (take maxLength text ++ JS.lit "...") (JS.lit "Ver mais")
        /\ length (take maxLength text) = maxLength
        /\ exists cut, cut <> [] /\ text = take maxLength text ++ cut)
       \/ (isExpanded = true /\ r = WithToggle text (JS.lit "Ver menos")))).

(** *** AppealAnalysis.jsx *)

Module AppealAnalysis.
Import JS.

Record formData := {
  text : str;
  top_k : number;
  instance_filter : str;
  min_score : number
}.

(** The result of an analysis, as far as the form keeps it. *)
Record analysis := {
  likely_decision : str;
  draft_response : option str
}.

Record state := {
  form : formData;
  results : option analysis;
  loading : bool;
  includeDraft : bool;
  errors : gmap string (option str);
  expandedResponses : gmap str bool
}.

Definition initial_formData : formData :=
  {| text := []; top_k := Fin 10; instance_filter := []; min_score := Fin 0 |}.

Definition initial_state : state :=
  {| form := initial_formData; results := None; loading := false;
     includeDraft := false; errors := ∅; expandedResponses := ∅ |}.

(** The object [newErrors] built by [validateForm]. *)
Definition validateForm_errors (fd : formData) : gmap string (option str) :=
  let e0 : gmap string (option str) := ∅ in
  let e1 :=
    if negb (str_truthy (trim (text fd)))
    then <["text" := Some (lit "O texto do recurso é obrigatório")]> e0
    else if (length (text fd) <? 10)%nat
    then <["text" := Some (lit "O texto deve ter pelo menos 10 caracteres")]> e0
    else if (5000 <? length (text fd))%nat
    then <["text" := Some (lit "O texto deve ter no máximo 5000 caracteres")]> e0
    else e0 in
  let e2 :=
    if lt (top_k fd) (Fin 1) || gt (top_k fd) (Fin 50)
    then <["top_k" :=
            Some (lit "O número de casos similares deve estar entre 1 e 50")]> e1
    else e1 in
  if lt (min_score fd) (Fin 0) || gt (min_score fd) (Fin 1)
  then <["min_score" :=
          Some (lit "O score mínimo deve estar entre 0.0 e 1.0")]> e2
  else e2.

(** [validateForm()]: the errors it stores and the value it returns,
    [Object.keys(newErrors).length === 0]. *)
Definition validateForm (fd : formData) : gmap string (option str) * bool :=
  let newErrors := validateForm_errors fd in
  (newErrors, (size newErrors =? 0)%nat).

(** The two calls of [apiService] that [handleSubmit] can make. *)
Inductive api_call :=
  | AnalyzeAppeal (query : formData)
  | AnalyzeAppealWithDraft (query : formData).

Definition set_errors (e : gmap string (option str)) (st : state) : state :=
  {| form := form st; results := results st; loading := loading st;
     includeDraft := includeDraft st; errors := e;
     expandedResponses := expandedResponses st |}.

(** [handleSubmit], up to the awaited call: the new state, the toasts
    shown, and the request that was issued, if any. *)
Definition handleSubmit_start (st : state)
    : state * list toast * option api_call :=
  let '(newErrors, ok) := validateForm (form st) in
  let st1 := set_errors newErrors st in
  if negb ok
  then (st1, [ToastError (lit "Por favor, corrija os erros no formulário")], None)
  else
    ({| form := form st1; results := None; loading := true;
        includeDraft := includeDraft st1; errors := errors st1;
        expandedResponses := expandedResponses st1 |},
     [],
     Some (if includeDraft st1 then AnalyzeAppealWithDraft (form st1)
           else AnalyzeAppeal (form st1))).

Section Input.
Variable to_number : Q -> number.

(** The object given to [setFormData] by [handleInputChange]. *)
Definition update_field (name : string) (value : str) (prev : formData)
    : formData :=
  if String.eqb name "top_k" then
    {| text := text prev;
       top_k := or_default (parseInt to_number value) (Fin 1);
       instance_filter := instance_filter prev;
       min_score := min_score prev |}
  else if String.eqb name "min_score" then
    {| text := text prev;
       top_k := top_k prev;
       instance_filter := instance_filter prev;
       min_score := or_default (parseFloat to_number value) (Fin 0) |}
  else if String.eqb name "text" then
    {| text := value; top_k := top_k prev;
       instance_filter := instance_filter prev;
       min_score := min_score prev |}
  else if String.eqb name "instance_filter" then
    {| text := text prev; top_k := top_k prev;
       instance_filter := value;
       min_score := min_score prev |}
  else prev.

(** Is [errors[name]] truthy: present, not null and not empty. *)
Definition has_error (e : gmap string (option str)) (name : string) : bool :=
  match e !! name with
  | Some (Some msg) => str_truthy msg
  | _ => false
  end.

(** [handleInputChange(e)] with [e.target] being [{ name, value }]. *)
Definition handleInputChange (name : string) (value : str) (st : state)
    : state :=
  {| form := update_field name value (form st);
     results := results st;
     loading := loading st;
     includeDraft := includeDraft st;
     errors := if has_error (errors st) name
               then <[name := None]> (errors st)
               else errors st;
     expandedResponses := expandedResponses st |}.

(** The form data that the inputs of the form can produce. *)
Inductive form_reachable : formData -> Prop :=
  | fr_init : form_reachable initial_formData
  | fr_change name value fd :
      form_reachable fd -> form_reachable (update_field name value fd).
End Input.

(** [renderExpandableText(text, appealId, maxLength = 300)] *)
Definition renderExpandableText (st : state) (text appealId : str)
    (maxLength : option nat) : expandable :=
  renderExpandableText_body (expandedResponses st) text appealId
    (default 300%nat maxLength).

End AppealAnalysis.

(** A finite number within [[lo, hi]]. *)
Definition in_range (lo hi : Q) (n : JS.number) : Prop :=
  match n with
  | JS.Fin q => (lo <= q)%Q /\ (q <= hi)%Q
  | _ => False
  end.

(** *** The retrieval core behind the lookup forms *)

Module Core.
Import JS.

(** Modelled from the spec: a Request of the corpus (§3); the records live
    in the index on the server. *)
Record Request := {
  rq_id : Z;
  protocol : str;
  summary : str;
  rq_responseText : str;
  agency : str;
  filingDate : str
}.

Inductive DecisionLabel :=
  | Granted | Denied | PartiallyGranted | NotKnown | Moot.

(** Modelled from the spec: an Appeal of the corpus (§3). *)
Record Appeal := {
  ap_id : Z;
  decision : DecisionLabel;
  instance : str;
  description : str;
  ap_responseText : str;
  relatedProtocol : option str
}.

(** Modelled from the spec: a RetrievalHit (§3), a record with its
    similarity score. *)
Record Hit (R : Type) := { record : R; similarityScore : Q }.
Arguments record {R}.
Arguments similarityScore {R}.

Fixpoint str_eqb (a b : str) : bool :=
  match a, b with
  | [], [] => true
  | x :: a', y :: b' => ascii_eqb x y && str_eqb a' b'
  | _, _ => false
  end.


(** **** Outcome Aggregator (§4.5) *)

Definition label_eqb (a b : DecisionLabel) : bool :=
  match a, b with
  | Granted, Granted | Denied, Denied | PartiallyGranted, PartiallyGranted
  | NotKnown, NotKnown | Moot, Moot => true
  | _, _ => false
  end.

(** Modelled from the spec: the fixed priority order of the labels (§4.5),
    taken in the order of §3; used for the entries and to break ties. *)
Definition labels : list DecisionLabel :=
  [Granted; Denied; PartiallyGranted; NotKnown; Moot].

Record StatEntry := { count : nat; percentage : Q }.

Record DecisionStats := {
  entries : list (DecisionLabel * StatEntry);
  predictedLabel : DecisionLabel
}.

Inductive AggregateError := InsufficientEvidence.

Definition count_label (l : DecisionLabel) (hits : list (Hit Appeal)) : nat :=
  length (filter (fun h => label_eqb (decision (record h)) l = true) hits).

(** [100 * count / total] *)
Definition percentage_of (c total : nat) : Q :=
  (100 * inject_Z (Z.of_nat c) / inject_Z (Z.of_nat total))%Q.

Definition entry_for (hits : list (Hit Appeal)) (l : DecisionLabel)
    : list (DecisionLabel * StatEntry) :=
  match count_label l hits with
  | O => []
  | c => [(l, {| count := c; percentage := percentage_of c (length hits) |})]
  end.

(** Modelled from the spec: [predictedLabel] (§4.5), the label with the
    highest count; among equal counts the earlier one in the priority
    order. *)
Definition most_frequent (hits : list (Hit Appeal)) : DecisionLabel :=
  fold_left
    (fun best l =>
       if (count_label best hits <? count_label l hits)%nat then l else best)
    labels Granted.

(** Modelled from the spec: [aggregate(appealHits)] (§4.5); the aggregator
    runs on the server and is not part of the sources. *)
Definition aggregate (appealHits : list (Hit Appeal))
    : DecisionStats + AggregateError :=
  match appealHits with
  | [] => inr InsufficientEvidence
  | _ =>
      inl {| entries := flat_map (entry_for appealHits) labels;
             predictedLabel := most_frequent appealHits |}
  end.

Definition lookup_label (l : DecisionLabel)
    (es : list (DecisionLabel * StatEntry)) : option StatEntry :=
  snd <$> find (fun e => label_eqb (fst e) l) es.

(** Number of hits that carry one of the labels [ls]. *)
Definition total_count (ls : list DecisionLabel) (hits : list (Hit Appeal))
    : nat :=
  fold_right (fun l acc => (count_label l hits + acc)%nat) 0%nat ls.

Definition sum_percentages (es : list (DecisionLabel * StatEntry)) : Q :=
  fold_right (fun e acc => (percentage (snd e) + acc)%Q) 0%Q es.

(** **** Cross-Reference Joiner (§4.4) *)

(** Modelled from the spec: the tunable parameters of the join (§4.4, §9). *)
Record JoinConfig := {
  widen : nat;               (* candidate superset multiplier *)
  candidateMinScore : Q;     (* moderate threshold of step 2 *)
  strictMinScore : Q;        (* stricter threshold of step 3 *)
  explicitLinks : bool;      (* do the corpora carry an explicit link *)
  linkScore : Q              (* score given to a key-linked pair *)
}.

Definition option_str_eqb (a : option str) (b : str) : bool :=
  match a with Some x => str_eqb x b | None => false end.

(** Stable insertion into a list sorted by non-increasing key. *)
Fixpoint insert_by {A} (key : A -> Q) (x : A) (l : list A) : list A :=
  match l with
  | [] => [x]
  | y :: tl =>
      if Qlt_bool (key y) (key x) then x :: l else y :: insert_by key x tl
  end.

Definition sort_desc {A} (key : A -> Q) (l : list A) : list A :=
  fold_right (insert_by key) [] l.

Section Joiner.
(** The two searches of the Vector Index (§4.2), each with the embedding
    of its text: query text, [topK], [minScore]. *)
Variable searchRequests : str -> nat -> Q -> list (Hit Request).
Variable searchAppeals : str -> nat -> Q -> list (Hit Appeal).
Variable appeals : list Appeal.
Variable cfg : JoinConfig.

(** Modelled from the spec: step 3 of §4.4, the Appeals linked to a
    candidate Request: by the shared key when the corpora carry one,
    otherwise by a second search seeded with the text of the Request that
    keeps the hits above the stricter threshold. *)
Definition resolve (topK : nat) (r : Request) : list (Hit Appeal) :=
  if explicitLinks cfg then
    map (fun a => {| record := a; similarityScore := linkScore cfg |})
        (filter (fun a => option_str_eqb (relatedProtocol a) (protocol r) = true)
                appeals)
  else
    filter (fun h => Qlt_bool (strictMinScore cfg) (similarityScore h) = true)
           (searchAppeals (summary r) topK (strictMinScore cfg)).

Definition combined (p : Hit Request * Hit Appeal) : Q :=
  ((similarityScore (fst p) + similarityScore (snd p)) / 2)%Q.

(** Modelled from the spec: the join of §4.4, steps 2 to 4; the joiner
    runs on the server and is not part of the sources. *)
Definition crossReference (topicQuery : str) (topK : nat)
    : list (Hit Request * Hit Appeal) :=
  let candidates :=
    searchRequests topicQuery (widen cfg * topK) (candidateMinScore cfg) in
  let surviving :=
    filter (fun c => resolve topK (record c) <> []) candidates in
  let pairs :=
    flat_map (fun c => map (fun a => (c, a)) (resolve topK (record c)))
             surviving in
  take topK (sort_desc combined pairs).
End Joiner.

End Core.

(** *** ProtocolSearch.jsx *)

Module ProtocolSearch.
Import JS.

(** The body of a successful reply of [/context-by-protocol]. *)
Record payload := {
  original_request : option Core.Request;
  similar_requests : option (list (Core.Hit Core.Request))
}.

(** How the awaited [apiService] call ends: with the reply data (possibly
    empty), with an HTTP error status and its optional detail, or with an
    error that carries no response. *)
Inductive api_outcome :=
  | Ok (data : option payload)
  | HttpError (status : Z) (detail : option str)
  | NoResponse.

Inductive api_call :=
  | FindSimilarRequests (protocolId : str) (topK : number).

Record state := {
  protocolId : str;
  topK : number;
  results : list (Core.Hit Core.Request);
  originalRequest : option Core.Request;
  loading : bool;
  error : str
}.

Definition initial_state : state :=
  {| protocolId := []; topK := Fin 5; results := [];
     originalRequest := None; loading := false; error := [] |}.

(** The success toast with the number of similar requests. *)
Definition count_message (n : nat) : str :=
  lit (NilZero.string_of_uint (Nat.to_uint n))
  ++ lit " pedidos similares encontrados!".

(** [handleSearch] run against a server [api]: the final state, the
    toasts shown and the calls made. *)
Definition handleSearch (api : str -> number -> api_outcome) (st : state)
    : state * list toast * list api_call :=
  if negb (str_truthy (trim (protocolId st)))
  then ({| protocolId := protocolId st; topK := topK st;
           results := results st; originalRequest := originalRequest st;
           loading := loading st;
           error := lit "Por favor, informe um número de protocolo" |},
        [], [])
  else
    let call := FindSimilarRequests (trim (protocolId st)) (topK st) in
    let finish (res : list (Core.Hit Core.Request))
               (orig : option Core.Request) (err : str) :=
      {| protocolId := protocolId st; topK := topK st;
         results := res; originalRequest := orig;
         loading := false; error := err |} in
    let generic (detail : option str) :=
      (finish [] None (lit "Erro ao realizar busca. Tente novamente."),
       [ToastError (match detail with
                    | Some (c :: d) => c :: d
                    | _ => lit "Erro ao buscar protocolo"
                    end)],
       [call]) in
    match api (trim (protocolId st)) (topK st) with
    | Ok (Some {| original_request := orig; similar_requests := Some sims |}) =>
        (finish sims orig [],
         [match sims with
          | [] => ToastInfo
                    (lit "Nenhum pedido similar encontrado para este protocolo")
          | _ => ToastSuccess (count_message (length sims))
          end],
         [call])
    | Ok _ => generic None
    | HttpError status detail =>
        if status =? 404
        then (finish [] None
                (lit "Protocolo '" ++ protocolId st
                 ++ lit "' não encontrado na base de dados"),
              [ToastError (lit "Protocolo não encontrado")],
              [call])
        else generic detail
    | NoResponse => generic None
    end.

Section TopK.
Variable to_number : Q -> number.
(** [onChange] of the quantity input: [setTopK(parseInt(value) || 5)]. *)
Definition onTopKChange (value : str) (st : state) : state :=
  {| protocolId := protocolId st;
     topK := or_default (parseInt to_number value) (Fin 5);
     results := results st; originalRequest := originalRequest st;
     loading := loading st; error := error st |}.
End TopK.


End ProtocolSearch.

(** *** AppealSearch.jsx *)

Module AppealSearch.
Import JS.

Record state := {
  appealId : str;
  topK : number;
  expandedResponses : gmap str bool
}.

Section TopK.
Variable to_number : Q -> number.
(** [onChange] of the quantity input: [setTopK(parseInt(value) || 5)]. *)
Definition onTopKChange (value : str) (st : state) : state :=
  {| appealId := appealId st;
     topK := or_default (parseInt to_number value) (Fin 5);
     expandedResponses := expandedResponses st |}.
End TopK.

(** [renderExpandableText(text, appealId, maxLength = 500)] *)
Definition renderExpandableText (st : state) (text appealId : str)
    (maxLength : option nat) : expandable :=
  renderExpandableText_body (expandedResponses st) text appealId
    (default 500%nat maxLength).

End AppealSearch.

(* ===================================================================== *)
(** ** The rest of the pages                                             *)
(* ===================================================================== *)

(** The [variant] of a [Badge]. *)
Inductive badge_variant := Success | Danger | Warning | Default.

(** A text that is not empty and neither starts nor ends with white
    space. *)
Definition tidy (t : JS.str) : Prop :=
  (exists c r, t = c :: r /\ JS.is_whitespace c = false)
  /\ (exists init x, t = init ++ [x] /\ JS.is_whitespace x = false).

(** *** app.js: what [sendMessageToAPI] throws *)

Module ChatPage.
Import JS Chat.

(** The message of the error thrown for a reply that is not [ok]:
    [HTTP error! status: ${status} - ${detail || statusText}]. *)
Definition http_error_message (status : nat) (detail : option str)
    (statusText : str) : str :=
  lit "HTTP error! status: "
  ++ lit (NilZero.string_of_uint (Nat.to_uint status))
  ++ lit " - "
  ++ match detail with
     | Some (c :: d) => c :: d
     | _ => statusText
     end.

(** The outcome of [sendMessageToAPI] for such a reply. *)
Definition http_failure (status : nat) (detail : option str)
    (statusText : str) : api_outcome :=
  Threw (http_error_message status detail statusText).

(** Text without special characters, markers or no-break spaces. *)
Definition ordinary (c : ascii) : bool :=
  plain_char c && negb (is_delim c) && negb (code c =? 160)%nat.

End ChatPage.

(** *** AppealAnalysis.jsx: the awaited part of [handleSubmit] *)

Module AnalysisPage.
Import JS AppealAnalysis.

(** [getDecisionBadgeVariant(decision)] of the analysis page. *)
Definition getDecisionBadgeVariant (decision : str) : badge_variant :=
  if includes decision (lit "Deferido") then Success
  else if includes decision (lit "Indeferido") then Danger
  else if includes decision (lit "Provavelmente") then Warning
  else Default.

(** How the awaited call ends: with the analysis, or with an error whose
    response, when there is one, has a status and perhaps a detail. *)
Inductive outcome :=
  | Resolved (result : analysis)
  | Rejected (status : option Z) (detail : option str).

Definition finish (st : state) (res : option analysis) (draft : bool)
    : state :=
  {| form := form st; results := res; loading := false;
     includeDraft := draft; errors := errors st;
     expandedResponses := expandedResponses st |}.

(** [handleSubmit] run against a server [api]: the final state, the
    toasts shown and the call made, if any. *)
Definition handleSubmit (api : api_call -> outcome) (st : state)
    : state * list toast * option api_call :=
  match handleSubmit_start st with
  | (st1, toasts, None) => (st1, toasts, None)
  | (st1, toasts, Some call) =>
      match api call with
      | Resolved result =>
          (finish st1 (Some result) (includeDraft st1),
           toasts ++
           [ToastSuccess
              (if includeDraft st
               then lit "Análise com minuta gerada com sucesso!"
               else lit "Análise realizada com sucesso!")],
           Some call)
      | Rejected status detail =>
          match status with
          | Some 404 =>
              (finish st1 (results st1) (includeDraft st1),
               toasts ++
               [ToastError (lit
                  "Nenhum recurso similar encontrado com os critérios especificados")],
               Some call)
          | Some 501 =>
              (finish st1 (results st1) false,
               toasts ++
               [ToastError (lit
                  "Funcionalidade de geração de minutas não disponível. Configure a API Key do Groq.")],
               Some call)
          | _ =>
              (finish st1 (results st1) (includeDraft st1),
               toasts ++
               [ToastError (match detail with
                            | Some (c :: d) => c :: d
                            | _ => lit "Erro ao realizar análise"
                            end)],
               Some call)
          end
      end
  end.

End AnalysisPage.

(** *** ProtocolSearch.jsx: formatting, cards and buttons *)

Module ProtocolPage.
Import JS ProtocolSearch.

(** [!summary || summary.trim() === ''] *)
Definition unavailable (summary : option str) : bool :=
  match summary with
  | None => true
  | Some s =>
      negb (str_truthy s)
      || match trim s with [] => true | _ => false end
  end.

(** [formatSummary(summary)] *)
Definition formatSummary (summary : option str) : str :=
  if unavailable summary then lit "Resumo não disponível no sistema"
  else match summary with Some s => trim s | None => [] end.

(** [getSummaryStyle(summary)] *)
Definition getSummaryStyle (summary : option str) : str :=
  if unavailable summary
  then lit "text-sm text-gray-400 leading-relaxed bg-gray-50 p-3 rounded border border-gray-200 italic flex items-center"
  else lit "text-sm text-gray-600 leading-relaxed bg-white p-3 rounded border".

(** [getOriginalSummaryStyle(summary)] *)
Definition getOriginalSummaryStyle (summary : option str) : str :=
  if unavailable summary
  then lit "text-sm text-blue-400 leading-relaxed bg-blue-25 p-3 rounded border border-blue-200 italic flex items-center"
  else lit "text-sm text-blue-700 leading-relaxed bg-white p-3 rounded border border-blue-200".

(** Does the summary paragraph start with the alert icon. *)
Definition summaryHasAlert (summary : option str) : bool := unavailable summary.

(** [getDecisionBadgeVariant(decision)] of the lookup pages. *)
Definition getDecisionBadgeVariant (decision : str) : badge_variant :=
  if Core.str_eqb decision (lit "Deferido") then Success
  else if Core.str_eqb decision (lit "Indeferido") then Danger
  else if Core.str_eqb decision (lit "Parcialmente Deferido") then Warning
  else Default.

(** The text of the block [Detalhamento]: shown when there are details
    that differ from the summary, cut at 500 characters. *)
Definition detailsBlock (details summary : option str) : option str :=
  match details with
  | Some (c :: d) =>
      let differs :=
        match summary with
        | Some s => negb (Core.str_eqb (c :: d) s)
        | None => true
        end in
      if differs
      then Some (if (500 <? length (c :: d))%nat
                 then substring0 500 (c :: d) ++ lit "..."
                 else c :: d)
      else None
  | _ => None
  end.

(** [handleProtocolChange(e)] *)
Definition handleProtocolChange (value : str) (st : state) : state :=
  {| protocolId := value; topK := topK st; results := results st;
     originalRequest := originalRequest st; loading := loading st;
     error := if str_truthy (error st) then [] else error st |}.

(** The button [Tentar novamente] of the error card. *)
Definition retry (st : state) : state :=
  {| protocolId := []; topK := topK st; results := [];
     originalRequest := originalRequest st; loading := loading st;
     error := [] |}.

(** Which of the cards below the form are rendered. *)
Definition showsOriginal (st : state) : bool :=
  match originalRequest st with Some _ => true | None => false end.
Definition showsResults (st : state) : bool :=
  (0 <? length (results st))%nat.
Definition showsEmpty (st : state) : bool :=
  (length (results st) =? 0)%nat && negb (loading st)
  && negb (str_truthy (error st)).
Definition showsError (st : state) : bool :=
  str_truthy (error st) && negb (loading st).

End ProtocolPage.

(** *** AppealSearch.jsx: the lookup by appeal id *)

Module AppealPage.
Import JS.

Record payload := {
  original_appeal : option Core.Appeal;
  similar_appeals : option (list (Core.Hit Core.Appeal))
}.

Inductive api_outcome :=
  | Ok (data : option payload)
  | HttpError (status : Z) (detail : option str)
  | NoResponse.

Inductive api_call :=
  | FindSimilarAppeals (appealId : str) (topK : number).

Record state := {
  appealId : str;
  topK : number;
  results : list (Core.Hit Core.Appeal);
  originalAppeal : option Core.Appeal;
  loading : bool;
  error : str;
  expandedResponses : gmap str bool
}.

Definition count_message (n : nat) : str :=
  lit (NilZero.string_of_uint (Nat.to_uint n))
  ++ lit " recursos similares encontrados!".

(** [handleSearch] run against a server [api]. *)
Definition handleSearch (api : str -> number -> api_outcome) (st : state)
    : state * list toast * list api_call :=
  if negb (str_truthy (trim (appealId st)))
  then ({| appealId := appealId st; topK := topK st;
           results := results st; originalAppeal := originalAppeal st;
           loading := loading st;
           error := lit "Por favor, informe um ID de recurso";
           expandedResponses := expandedResponses st |},
        [], [])
  else
    let call := FindSimilarAppeals (trim (appealId st)) (topK st) in
    let finish (res : list (Core.Hit Core.Appeal))
               (orig : option Core.Appeal) (err : str) :=
      {| appealId := appealId st; topK := topK st;
         results := res; originalAppeal := orig;
         loading := false; error := err;
         expandedResponses := expandedResponses st |} in
    let generic (detail : option str) :=
      (finish [] None (lit "Erro ao realizar busca. Tente novamente."),
       [ToastError (match detail with
                    | Some (c :: d) => c :: d
                    | _ => lit "Erro ao buscar recurso"
                    end)],
       [call]) in
    match api (trim (appealId st)) (topK st) with
    | Ok (Some {| original_appeal := orig; similar_appeals := Some sims |}) =>
        (finish sims orig [],
         [match sims with
          | [] => ToastInfo
                    (lit "Nenhum recurso similar encontrado para este ID")
          | _ => ToastSuccess (count_message (length sims))
          end],
         [call])
    | Ok _ => generic None
    | HttpError status detail =>
        if status =? 404
        then (finish [] None
                (lit "Recurso com ID '" ++ appealId st
                 ++ lit "' não encontrado na base de dados"),
              [ToastError (lit "Recurso não encontrado")],
              [call])
        else generic detail
    | NoResponse => generic None
    end.

(** [!response || response.trim() === ''] *)
Definition unavailable (response : option str) : bool :=
  match response with
  | None => true
  | Some s =>
      negb (str_truthy s)
      || match trim s with [] => true | _ => false end
  end.

(** [formatResponse(response)] *)
Definition formatResponse (response : option str) : str :=
  if unavailable response then lit "Resposta não disponível no sistema"
  else match response with Some s => trim s | None => [] end.

End AppealPage.

(** *** Dashboard.jsx *)

Module DashboardPage.

Section Load.
(** The bodies of the three replies; the page only stores them. *)
Variables (Health Info Minuta : Type).

Record state := {
  healthData : option Health;
  appInfo : option Info;
  minutaStatus : option Minuta;
  loading : bool
}.

(** [loadDashboardData] with the way each of the three calls of
    [Promise.all] ends: [None] when the call is rejected. *)
Definition loadDashboardData (health : option Health) (info : option Info)
    (minuta : option Minuta) (st : state) : state * list toast :=
  match health, info, minuta with
  | Some h, Some i, Some m =>
      ({| healthData := Some h; appInfo := Some i; minutaStatus := Some m;
          loading := false |}, [])
  | _, _, _ =>
      ({| healthData := healthData st; appInfo := appInfo st;
          minutaStatus := minutaStatus st; loading := false |},
       [ToastError (JS.lit "Erro ao carregar dados do sistema")])
  end.
End Load.

End DashboardPage.

(** *** App.js and Navigation.jsx *)

Module AppShell.

Inductive page := Dashboard | AppealAnalysisView | ProtocolSearchView
                | AppealSearchView.

(** [renderCurrentPage()] for a value of [currentPage]. *)
Definition renderCurrentPage (currentPage : string) : page :=
  if String.eqb currentPage "analysis" then AppealAnalysisView
  else if String.eqb currentPage "protocol" then ProtocolSearchView
  else if String.eqb currentPage "appeal" then AppealSearchView
  else Dashboard.

(** The [navigation] table: id and name of each entry. *)
Definition navigation : list (string * string) :=
  [("dashboard", "Dashboard"); ("analysis", "Análise de Recursos");
   ("protocol", "Busca por Protocolo"); ("appeal", "Busca por Recurso")]%string.

Record shell := { currentPage : string; isMobileMenuOpen : bool }.

(** [handleNavClick(pageId)] with [onPageChange] being [setCurrentPage]. *)
Definition handleNavClick (pageId : string) (sh : shell) : shell :=
  {| currentPage := pageId; isMobileMenuOpen := false |}.

End AppShell.

(* ===================================================================== *)
(** ** Lemmas on slices                                                  *)
(* ===================================================================== *)

Section SliceFacts.
Context {A : Type}.
Implicit Types l : list A.

Lemma lastn_length n l : length (JS.lastn n l) = Nat.min n (length l).
Proof. unfold JS.lastn. rewrite length_drop. lia. Qed.

Lemma lastn_all n l : (length l <= n)%nat -> JS.lastn n l = l.
Proof.
  intros H. unfold JS.lastn.
  replace (length l - n)%nat with 0%nat by lia. reflexivity.
Qed.

Lemma lastn_suffix n l : exists old, l = old ++ JS.lastn n l.
Proof.
  exists (take (length l - n)%nat l). unfold JS.lastn.
  symmetry. apply take_drop.
Qed.

(** A negative start takes the last [-start] elements. *)
Lemma slice_from_neg (k : Z) l :
  0 < k -> JS.slice_from (- k) l = JS.lastn (Z.to_nat k) l.
Proof.
  intros Hk. unfold JS.slice_from, JS.lastn.
  destruct (Z.ltb_spec (- k) 0) as [_|?]; [|lia].
  f_equal. lia.
Qed.

(** [slice(-0)] is [slice(0)]: the whole array. *)
Lemma slice_from_zero l : JS.slice_from (- 0) l = l.
Proof.
  unfold JS.slice_from. change (- 0) with 0.
  destruct (Z.ltb_spec 0 0) as [?|_]; [lia|].
  replace (Z.to_nat (Z.min 0 (Z.of_nat (length l)))) with 0%nat by lia.
  reflexivity.
Qed.

(** Taking the last [n] after more elements arrive only needs the last
    [n] of what was there. *)
Lemma lastn_app_lastn n l k :
  JS.lastn n (JS.lastn n l ++ k) = JS.lastn n (l ++ k).
Proof.
  unfold JS.lastn.
  rewrite !length_app, length_drop.
  rewrite !drop_app, drop_drop, length_drop.
  f_equal; f_equal; lia.
Qed.
End SliceFacts.

(* ===================================================================== *)
(** ** Conversation history window (app.js)                              *)
(* ===================================================================== *)

Section HistoryWindow.
Import JS Chat.
Variable cfg : config.
Hypothesis limit_pos : 0 < HISTORY_LIMIT cfg.

Lemma addToHistory_lastn h r c :
  addToHistory cfg h r c =
  lastn (window cfg) (h ++ [ {| t_role := r; t_content := c |} ]).
Proof.
  unfold addToHistory, window.
  destruct (Z.ltb_spec (HISTORY_LIMIT cfg * 2)
              (Z.of_nat (length (h ++ [ {| t_role := r; t_content := c |} ]))))
    as [Hlong|Hshort].
  - replace (- HISTORY_LIMIT cfg * 2) with (- (HISTORY_LIMIT cfg * 2)) by lia.
    apply slice_from_neg. lia.
  - symmetry. apply lastn_all. lia.
Qed.

Lemma appendAll_lastn ts : forall h,
  (length h <= window cfg)%nat ->
  appendAll cfg h ts = lastn (window cfg) (h ++ ts).
Proof.
  induction ts as [|[r c] ts IH]; intros h Hh.
  - simpl. rewrite app_nil_r. symmetry. now apply lastn_all.
  - simpl. rewrite IH, addToHistory_lastn.
    + rewrite lastn_app_lastn, <- app_assoc. reflexivity.
    + rewrite addToHistory_lastn, lastn_length. lia.
Qed.
End HistoryWindow.

(** C1. Whatever turns are appended to a session's history, the stored
    history is exactly the most recent [HISTORY_LIMIT * 2] entries of
    everything appended so far, in the original order: it never exceeds
    that window, and what is missing is a prefix, the oldest entries.
    (The history the session starts from respects the window, or at least
    one turn has been appended.) *)
Theorem history_window_keeps_latest (cfg : Chat.config)
    (h0 ts : list Chat.turn) :
  0 < Chat.HISTORY_LIMIT cfg ->
  (length h0 <= Chat.window cfg)%nat \/ ts <> [] ->
  Chat.appendAll cfg h0 ts = JS.lastn (Chat.window cfg) (h0 ++ ts)
  /\ (length (Chat.appendAll cfg h0 ts) <= Chat.window cfg)%nat
  /\ exists evicted, h0 ++ ts = evicted ++ Chat.appendAll cfg h0 ts.
Proof.
  intros Hlim Hstart.
  assert (E : Chat.appendAll cfg h0 ts = JS.lastn (Chat.window cfg) (h0 ++ ts)).
  { destruct Hstart as [Hlen|Hne]; [now apply appendAll_lastn|].
    destruct ts as [|[r c] ts]; [congruence|].
    simpl. rewrite appendAll_lastn by
      (try assumption; rewrite addToHistory_lastn, lastn_length by assumption;
       lia).
    rewrite addToHistory_lastn by assumption.
    rewrite lastn_app_lastn, <- app_assoc. reflexivity. }
  rewrite E. split; [reflexivity|]. split.
  - rewrite lastn_length. lia.
  - apply lastn_suffix.
Qed.

Lemma history_window_keeps_latest_witness :
  0 < Chat.HISTORY_LIMIT Chat.CONFIG
  /\ Chat.appendAll Chat.CONFIG [] (Chat.sample_turns 23)
      = JS.lastn 20 (Chat.sample_turns 23)
  /\ (length (Chat.appendAll Chat.CONFIG [] (Chat.sample_turns 23)) <= 20)%nat.
Proof.
  split; [reflexivity|].
  destruct (history_window_keeps_latest Chat.CONFIG [] (Chat.sample_turns 23))
    as (E & L & _).
  - reflexivity.
  - left. simpl. lia.
  - split; [exact E | exact L].
Defined.

(** C2. The history attached to a chat request is the last [HISTORY_LIMIT]
    entries of the stored history, in order; everything older is left
    out. *)
Theorem request_history_is_recent (cfg : Chat.config) (message : JS.str)
    (history : list Chat.turn) :
  0 < Chat.HISTORY_LIMIT cfg ->
  let sent := Chat.rq_history (Chat.sendMessageToAPI_body cfg message history) in
  sent = JS.lastn (Z.to_nat (Chat.HISTORY_LIMIT cfg)) history
  /\ length sent = Nat.min (Z.to_nat (Chat.HISTORY_LIMIT cfg)) (length history)
  /\ exists older, history = older ++ sent.
Proof.
  intros Hlim. cbv zeta. unfold Chat.sendMessageToAPI_body. simpl.
  rewrite slice_from_neg by assumption.
  split; [reflexivity|]. split.
  - apply lastn_length.
  - apply lastn_suffix.
Qed.

Lemma request_history_is_recent_witness :
  0 < Chat.HISTORY_LIMIT Chat.CONFIG
  /\ Chat.rq_history
       (Chat.sendMessageToAPI_body Chat.CONFIG [] (Chat.sample_turns 13))
     = JS.lastn 10 (Chat.sample_turns 13).
Proof.
  split; [reflexivity|].
  destruct (request_history_is_recent Chat.CONFIG [] (Chat.sample_turns 13))
    as (E & _); [reflexivity | exact E].
Defined.

(* ===================================================================== *)
(** ** Validation and coercion of the numeric fields                     *)
(* ===================================================================== *)

Section NumberFacts.
Import JS.

Lemma Qlt_bool_iff p q : Qlt_bool p q = true <-> (p < q)%Q.
Proof.
  unfold Qlt_bool. rewrite negb_true_iff.
  split.
  - intros H. apply Qnot_le_lt. intros Hle.
    apply Qle_bool_iff in Hle. congruence.
  - intros H. destruct (Qle_bool q p) eqn:E; [|reflexivity].
    apply Qle_bool_iff in E. apply Qlt_not_le in H. contradiction.
Qed.

Lemma or_default_not_NaN a d : d <> NaN -> or_default a d <> NaN.
Proof.
  intros Hd. unfold or_default.
  destruct a; simpl; try assumption; try discriminate.
  destruct (negb (Qeq_bool q 0)); [discriminate | assumption].
Qed.

Lemma or_default_NaN d : or_default NaN d = d.
Proof. reflexivity. Qed.

(** The test of [validateForm] fires on every number outside the range
    except NaN. *)
Lemma out_of_range_detected (lo hi : Q) (n : number) :
  n <> NaN -> ~ in_range lo hi n ->
  lt n (Fin lo) || gt n (Fin hi) = true.
Proof.
  intros Hn Hout. destruct n as [| | |q]; simpl in *;
    try congruence; try reflexivity.
  apply orb_true_iff. unfold gt. simpl.
  destruct (Qlt_le_dec q lo) as [Hlo|Hlo].
  - left. now apply Qlt_bool_iff.
  - right. apply Qlt_bool_iff. apply Qnot_le_lt. intros Hhi.
    apply Hout. now split.
Qed.

(** Conversely the test is silent inside the range. *)
Lemma in_range_accepted (lo hi : Q) (n : number) :
  in_range lo hi n -> lt n (Fin lo) || gt n (Fin hi) = false.
Proof.
  destruct n as [| | |q]; simpl; try tauto.
  intros [Hlo Hhi]. apply orb_false_iff. unfold gt. simpl. split.
  - destruct (Qlt_bool q lo) eqn:E; [|reflexivity].
    apply Qlt_bool_iff in E. apply Qlt_not_le in E. contradiction.
  - destruct (Qlt_bool hi q) eqn:E; [|reflexivity].
    apply Qlt_bool_iff in E. apply Qlt_not_le in E. contradiction.
Qed.
End NumberFacts.

Section FormFacts.
Import JS AppealAnalysis.
Variable to_number : Q -> number.

Lemma update_field_cases name value fd :
  let fd' := update_field to_number name value fd in
  (top_k fd' = top_k fd \/
   top_k fd' = or_default (parseInt to_number value) (Fin 1))
  /\ (min_score fd' = min_score fd \/
      min_score fd' = or_default (parseFloat to_number value) (Fin 0)).
Proof.
  cbv zeta. unfold update_field.
  repeat (destruct (String.eqb name _); simpl; [tauto|]). tauto.
Qed.

(** No input of the form ever stores NaN in a numeric field. *)
Lemma form_reachable_not_NaN fd :
  form_reachable to_number fd -> top_k fd <> NaN /\ min_score fd <> NaN.
Proof.
  induction 1 as [|name value fd Hfd [IHk IHs]].
  - split; discriminate.
  - destruct (update_field_cases name value fd) as [[Ek|Ek] [Es|Es]];
      rewrite Ek, Es; split;
      try assumption; apply or_default_not_NaN; discriminate.
Qed.

Lemma validateForm_top_k fd :
  validateForm_errors fd !! "top_k"%string =
  if lt (top_k fd) (Fin 1) || gt (top_k fd) (Fin 50)
  then Some (Some (lit "O número de casos similares deve estar entre 1 e 50"))
  else None.
Proof.
  unfold validateForm_errors.
  repeat match goal with |- context [if ?b then _ else _] =>
    destruct b end;
  by simplify_map_eq.
Qed.

Lemma validateForm_min_score fd :
  validateForm_errors fd !! "min_score"%string =
  if lt (min_score fd) (Fin 0) || gt (min_score fd) (Fin 1)
  then Some (Some (lit "O score mínimo deve estar entre 0.0 e 1.0"))
  else None.
Proof.
  unfold validateForm_errors.
  repeat match goal with |- context [if ?b then _ else _] =>
    destruct b end;
  by simplify_map_eq.
Qed.

(** [handleSubmit] stops before the request whenever [validateForm]
    recorded an error. *)
Lemma handleSubmit_start_rejects st name msg :
  validateForm_errors (form st) !! name = Some msg ->
  handleSubmit_start st =
    (set_errors (validateForm_errors (form st)) st,
     [ToastError (lit "Por favor, corrija os erros no formulário")],
     None).
Proof.
  intros Hlk. unfold handleSubmit_start, validateForm.
  destruct (Nat.eqb_spec (size (validateForm_errors (form st))) 0) as [E|E].
  - apply map_size_empty_iff in E. rewrite E in Hlk.
    rewrite lookup_empty in Hlk. discriminate.
  - reflexivity.
Qed.
End FormFacts.

Section ParserFacts.
Import JS.
Variable to_number : Q -> number.

Lemma is_digit_zero c : ascii_eqb c "0" = true -> is_digit c = true.
Proof. intros H. apply Ascii.eqb_eq in H. now subst. Qed.

(** [parseInt] finds no number in a string that starts with none. *)
Lemma parseInt_lacks_integer s :
  lacks_integer s = true -> parseInt to_number s = NaN.
Proof.
  unfold lacks_integer, parseInt.
  destruct (strip_sign (trimStart s)) as [neg s1]. simpl.
  destruct s1 as [|c tl]; [reflexivity|]. intros Hc.
  apply negb_true_iff in Hc.
  assert (E0 : ascii_eqb c "0" = false).
  { destruct (ascii_eqb c "0") eqn:E; [|reflexivity].
    apply is_digit_zero in E. congruence. }
  destruct tl as [|x tl]; simpl; rewrite ?E0; simpl; now rewrite Hc.
Qed.

Lemma startsWith_head p ps c tl :
  startsWith (p :: ps) (c :: tl) = true -> ascii_eqb p c = true.
Proof. simpl. intros H. now apply andb_true_iff in H. Qed.

(** [parseFloat] finds no number in a string that starts with none. *)
Lemma parseFloat_lacks_decimal s :
  lacks_decimal s = true -> parseFloat to_number s = NaN.
Proof.
  unfold lacks_decimal, parseFloat.
  destruct (strip_sign (trimStart s)) as [neg s1]. simpl snd.
  destruct s1 as [|c tl]; [reflexivity|]. intros Hc.
  apply negb_true_iff in Hc.
  apply orb_false_iff in Hc. destruct Hc as [Hc HI].
  apply orb_false_iff in Hc. destruct Hc as [Hd Hdot].
  destruct (startsWith (lit "Infinity") (c :: tl)) eqn:Einf.
  - apply startsWith_head in Einf.
    unfold ascii_eqb in *. rewrite Ascii.eqb_sym in Einf. congruence.
  - simpl. rewrite Hd, Hdot. reflexivity.
Qed.
End ParserFacts.

(** C3. In the appeal-analysis form, a query whose [top_k] is not within
    1..50 or whose [min_score] is not within 0..1 is refused by
    [handleSubmit] before any request is issued: an error is recorded for
    the field, the error toast is shown, no call of the API is made, and
    the results and the loading flag are left as they were. *)
Theorem out_of_range_query_rejected (to_number : Q -> JS.number)
    (st : AppealAnalysis.state) :
  AppealAnalysis.form_reachable to_number (AppealAnalysis.form st) ->
  ~ in_range 1 50 (AppealAnalysis.top_k (AppealAnalysis.form st))
  \/ ~ in_range 0 1 (AppealAnalysis.min_score (AppealAnalysis.form st)) ->
  exists st',
    AppealAnalysis.handleSubmit_start st =
      (st', [ToastError (JS.lit "Por favor, corrija os erros no formulário")], None)
    /\ AppealAnalysis.results st' = AppealAnalysis.results st
    /\ AppealAnalysis.loading st' = AppealAnalysis.loading st
    /\ (is_Some (AppealAnalysis.errors st' !! "top_k"%string)
        \/ is_Some (AppealAnalysis.errors st' !! "min_score"%string)).
Proof.
  intros Hreach Hout.
  destruct (form_reachable_not_NaN _ _ Hreach) as [Hk Hs].
  exists (AppealAnalysis.set_errors
            (AppealAnalysis.validateForm_errors (AppealAnalysis.form st)) st).
  destruct Hout as [Hout|Hout].
  - pose proof (validateForm_top_k (AppealAnalysis.form st)) as E.
    rewrite (out_of_range_detected _ _ _ Hk Hout) in E.
    split; [eapply handleSubmit_start_rejects; exact E|].
    simpl. rewrite E. eauto.
  - pose proof (validateForm_min_score (AppealAnalysis.form st)) as E.
    rewrite (out_of_range_detected _ _ _ Hs Hout) in E.
    split; [eapply handleSubmit_start_rejects; exact E|].
    simpl. rewrite E. eauto.
Qed.

Lemma out_of_range_query_rejected_witness :
  let st := AppealAnalysis.handleInputChange JS.Fin "top_k" (JS.lit "99")
              AppealAnalysis.initial_state in
  ~ in_range 1 50 (AppealAnalysis.top_k (AppealAnalysis.form st))
  /\ exists st',
      AppealAnalysis.handleSubmit_start st =
        (st', [ToastError (JS.lit "Por favor, corrija os erros no formulário")],
         None)
      /\ AppealAnalysis.results st' = AppealAnalysis.results st
      /\ AppealAnalysis.loading st' = AppealAnalysis.loading st
      /\ (is_Some (AppealAnalysis.errors st' !! "top_k"%string)
          \/ is_Some (AppealAnalysis.errors st' !! "min_score"%string)).
Proof.
  cbv zeta.
  assert (Hout : ~ in_range 1 50
            (AppealAnalysis.top_k (AppealAnalysis.form
               (AppealAnalysis.handleInputChange JS.Fin "top_k" (JS.lit "99")
                  AppealAnalysis.initial_state)))).
  { intros [_ H]. apply Qle_bool_iff in H. vm_compute in H. discriminate. }
  split; [exact Hout|].
  apply (out_of_range_query_rejected JS.Fin).
  - apply AppealAnalysis.fr_change, AppealAnalysis.fr_init.
  - left. exact Hout.
Defined.

(** C9. A value in which the parser finds no number (the empty string, a
    word) is replaced by the default of the field instead of being reported:
    [top_k] becomes 1 in the appeal-analysis form and 5 in the two lookup
    forms, [min_score] becomes 0; the field then holds no error, and
    [validateForm] raises none for it. *)
Theorem non_numeric_input_coerced (to_number : Q -> JS.number)
    (v_k v_s : JS.str) (st : AppealAnalysis.state)
    (pst : ProtocolSearch.state) (ast : AppealSearch.state) :
  JS.parseInt to_number v_k = JS.NaN ->
  JS.parseFloat to_number v_s = JS.NaN ->
  let st_k := AppealAnalysis.handleInputChange to_number "top_k" v_k st in
  let st_s := AppealAnalysis.handleInputChange to_number "min_score" v_s st in
  AppealAnalysis.top_k (AppealAnalysis.form st_k) = JS.Fin 1
  /\ AppealAnalysis.min_score (AppealAnalysis.form st_s) = JS.Fin 0
  /\ ProtocolSearch.topK (ProtocolSearch.onTopKChange to_number v_k pst)
       = JS.Fin 5
  /\ AppealSearch.topK (AppealSearch.onTopKChange to_number v_k ast)
       = JS.Fin 5
  /\ AppealAnalysis.has_error (AppealAnalysis.errors st_k) "top_k" = false
  /\ AppealAnalysis.has_error (AppealAnalysis.errors st_s) "min_score" = false
  /\ AppealAnalysis.validateForm_errors (AppealAnalysis.form st_k)
       !! "top_k"%string = None
  /\ AppealAnalysis.validateForm_errors (AppealAnalysis.form st_s)
       !! "min_score"%string = None.
Proof.
  intros Hk Hs. cbv zeta.
  assert (Ek : AppealAnalysis.top_k (AppealAnalysis.form
            (AppealAnalysis.handleInputChange to_number "top_k" v_k st))
          = JS.Fin 1).
  { simpl. unfold AppealAnalysis.update_field. simpl. now rewrite Hk. }
  assert (Es : AppealAnalysis.min_score (AppealAnalysis.form
            (AppealAnalysis.handleInputChange to_number "min_score" v_s st))
          = JS.Fin 0).
  { simpl. unfold AppealAnalysis.update_field. simpl. now rewrite Hs. }
  assert (Herr : forall name,
            AppealAnalysis.has_error
              (if AppealAnalysis.has_error (AppealAnalysis.errors st) name
               then <[name := None]> (AppealAnalysis.errors st)
               else AppealAnalysis.errors st) name = false).
  { intros name.
    destruct (AppealAnalysis.has_error (AppealAnalysis.errors st) name) eqn:E.
    - unfold AppealAnalysis.has_error. now rewrite lookup_insert_eq.
    - exact E. }
  repeat split.
  - exact Ek.
  - exact Es.
  - simpl. now rewrite Hk.
  - simpl. now rewrite Hk.
  - apply Herr.
  - apply Herr.
  - rewrite validateForm_top_k, Ek. reflexivity.
  - rewrite validateForm_min_score, Es. reflexivity.
Qed.

Lemma non_numeric_input_coerced_witness :
  JS.parseInt JS.Fin (JS.lit "abc") = JS.NaN
  /\ JS.parseFloat JS.Fin [] = JS.NaN
  /\ AppealAnalysis.top_k (AppealAnalysis.form
       (AppealAnalysis.handleInputChange JS.Fin "top_k" (JS.lit "abc")
          AppealAnalysis.initial_state)) = JS.Fin 1
  /\ ProtocolSearch.topK
       (ProtocolSearch.onTopKChange JS.Fin (JS.lit "abc")
          ProtocolSearch.initial_state) = JS.Fin 5.
Proof.
  split; [reflexivity|]. split; [reflexivity|].
  destruct (non_numeric_input_coerced JS.Fin (JS.lit "abc") []
              AppealAnalysis.initial_state ProtocolSearch.initial_state
              {| AppealSearch.appealId := []; AppealSearch.topK := JS.Fin 5;
                 AppealSearch.expandedResponses := ∅ |})
    as (H1 & _ & H3 & _); [reflexivity | reflexivity |].
  split; [exact H1 | exact H3].
Defined.

(* ===================================================================== *)
(** ** Lookup by protocol                                                *)
(* ===================================================================== *)

Section ProtocolLookup.
Import JS ProtocolSearch.

End ProtocolLookup.



(* ===================================================================== *)
(** ** Excerpts                                                          *)
(* ===================================================================== *)

Lemma renderExpandableText_body_marked (expanded : gmap JS.str bool)
    (text appealId : JS.str) (maxLength : nat) :
  marked_excerpt (default false (expanded !! appealId)) text maxLength
    (renderExpandableText_body expanded text appealId maxLength).
Proof.
  unfold marked_excerpt, renderExpandableText_body.
  destruct (Nat.ltb_spec maxLength (length text)) as [Hlong|Hfit]; simpl.
  - right. split; [exact Hlong|].
    destruct (default false (expanded !! appealId)).
    + right. split; reflexivity.
    + left. split; [reflexivity|]. split; [reflexivity|]. split.
      * rewrite length_take. lia.
      * exists (drop maxLength text). split.
        -- intros E. apply (f_equal length) in E.
           rewrite length_drop in E. simpl in E. lia.
        -- symmetry. apply take_drop.
  - left. split; [exact Hfit | reflexivity].
Qed.

(** C6. A response text is shown whole when it fits the bound of the
    component (300 characters in the appeal analysis, 500 in the appeal
    search, or the bound passed by the caller); a longer one is shown, until
    the reader expands it, as exactly its first bound-many characters
    followed by the marker [...]. *)
Theorem excerpt_truncated_with_marker (ast : AppealAnalysis.state)
    (sst : AppealSearch.state) (text appealId : JS.str)
    (maxLength : option nat) :
  marked_excerpt
    (default false (AppealAnalysis.expandedResponses ast !! appealId))
    text (default 300%nat maxLength)
    (AppealAnalysis.renderExpandableText ast text appealId maxLength)
  /\ marked_excerpt
       (default false (AppealSearch.expandedResponses sst !! appealId))
       text (default 500%nat maxLength)
       (AppealSearch.renderExpandableText sst text appealId maxLength).
Proof.
  split; apply renderExpandableText_body_marked.
Qed.

(* ===================================================================== *)
(** ** One query in flight per session (app.js)                          *)
(* ===================================================================== *)

Section Session.
Import JS Chat.
Variable cfg : config.
Hypothesis limit_pos : 0 < HISTORY_LIMIT cfg.

Lemma window_ge_2 : (2 <= window cfg)%nat.
Proof. unfold window. lia. Qed.

(** With a window of at least [n] entries, the [n] newest survive. *)
Lemma lastn_keeps_tail (h tl : list turn) :
  (length tl <= window cfg)%nat ->
  exists older, lastn (window cfg) (h ++ tl) = older ++ tl.
Proof.
  intros Hn. unfold lastn. rewrite length_app.
  exists (drop (length h + length tl - window cfg) h).
  rewrite drop_app. f_equal.
  replace (length h + length tl - window cfg - length h)%nat with 0%nat by lia.
  reflexivity.
Qed.

(** The guard of [handleFormSubmit]. *)
Lemma start_while_loading st :
  isLoading st = true -> handleFormSubmit_start cfg st = (st, None).
Proof.
  intros H. unfold handleFormSubmit_start. rewrite H.
  now rewrite orb_true_r.
Qed.

Lemma start_cases st :
  handleFormSubmit_start cfg st = (st, None)
  \/ (isLoading st = false
      /\ exists st' m rq,
           handleFormSubmit_start cfg st = (st', Some rq)
           /\ rq = sendMessageToAPI_body cfg m (history st')
           /\ m = trim (messageInput st) /\ m <> []
           /\ isLoading st' = true
           /\ history st' = addToHistory cfg (history st) user m).
Proof.
  unfold handleFormSubmit_start.
  destruct (trim (messageInput st)) as [|c m] eqn:Em; simpl; [now left|].
  destruct (isLoading st) eqn:El; simpl; [now left|].
  right. split; [reflexivity|].
  eexists _, (c :: m), _.
  split; [reflexivity|]. split; [reflexivity|]. split; [reflexivity|].
  split; [discriminate|]. split; reflexivity.
Qed.

Lemma step_serialized s e s' :
  serialized s -> step cfg s e s' -> serialized s'.
Proof.
  intros Hs Hstep. destruct Hstep as [s v | s | s rq rest o Hin].
  - exact Hs.
  - destruct Hs as [[Hidle Hnone] | [Hload (rq & older & Hin & Hh)]].
    + destruct (start_cases (ui s))
        as [E | (_ & st' & m & rq & E & Erq & _ & _ & Hl & Hh)];
        rewrite E; simpl.
      * left. rewrite Hnone. now split.
      * right. split; [exact Hl|]. rewrite Hnone. simpl.
        destruct (lastn_keeps_tail (history (ui s))
                    [ {| t_role := user; t_content := m |} ])
          as (older & Eo); [pose proof window_ge_2; simpl; lia|].
        exists rq, older. split; [reflexivity|].
        rewrite Hh, addToHistory_lastn by exact limit_pos.
        rewrite Erq. simpl. exact Eo.
    + rewrite (start_while_loading _ Hload). simpl.
      right. split; [exact Hload|]. exists rq, older.
      rewrite app_nil_r. now split.
  - left. split; [reflexivity|]. simpl.
    destruct Hs as [[_ Hnone] | [_ (rq' & older & Hin' & _)]]; congruence.
Qed.

Lemma reachable_serialized loaded s :
  reachable cfg loaded s -> serialized s.
Proof.
  induction 1 as [|s e s' _ IH Hstep].
  - left. now split.
  - eapply step_serialized; eassumption.
Qed.

(** An answer is stored right behind the user turn it answers. *)
Lemma finish_appends_answer st m a srcs older :
  a <> [] ->
  history st = older ++ [ {| t_role := user; t_content := m |} ] ->
  exists older',
    history (handleFormSubmit_finish cfg st
               (Replied {| answer := Some a; rsp_sources := srcs |}))
    = older' ++ [ {| t_role := user; t_content := m |};
                  {| t_role := assistant; t_content := a |} ].
Proof.
  intros Ha Hh. destruct a as [|c a]; [congruence|].
  simpl. rewrite addToHistory_lastn by exact limit_pos.
  simpl. rewrite Hh, <- app_assoc. simpl.
  apply lastn_keeps_tail. pose proof window_ge_2. simpl. lia.
Qed.

(** Without an answer, or when the call throws, the history is left as
    it is. *)
Lemma finish_without_answer st o :
  no_answer o -> history (handleFormSubmit_finish cfg st o) = history st.
Proof.
  intros Ho. destruct o as [r|msg]; simpl in *.
  - destruct Ho as [E|E]; rewrite E; reflexivity.
  - reflexivity.
Qed.
End Session.

(** C5, amended.  In every state a session can reach, at most one request
    awaits its response.  While one does, submitting again starts no
    request and leaves the page state, hence the history, untouched.  So
    the turns of two exchanges never interleave: when the response brings
    an answer, the assistant turn is stored directly after the user turn of
    that request; when the call fails or brings no answer, nothing is
    stored and the user turn stays without an assistant turn. *)
Theorem one_query_in_flight (cfg : Chat.config) (loaded : list Chat.turn)
    (s : Chat.session) :
  0 < Chat.HISTORY_LIMIT cfg ->
  Chat.reachable cfg loaded s ->
  (length (Chat.in_flight s) <= 1)%nat
  /\ (Chat.in_flight s <> [] ->
      forall s', Chat.step cfg s Chat.Submit s' ->
        Chat.in_flight s' = Chat.in_flight s /\ Chat.ui s' = Chat.ui s)
  /\ (forall rq a srcs s',
        Chat.in_flight s = [rq] -> a <> [] ->
        Chat.step cfg s
          (Chat.Settle (Chat.Replied {| Chat.answer := Some a;
                                        Chat.rsp_sources := srcs |})) s' ->
        Chat.in_flight s' = []
        /\ exists older,
             Chat.history (Chat.ui s') =
             older ++ [ {| Chat.t_role := Chat.user;
                           Chat.t_content := Chat.rq_message rq |};
                        {| Chat.t_role := Chat.assistant;
                           Chat.t_content := a |} ])
  /\ (forall o s',
        Chat.no_answer o -> Chat.step cfg s (Chat.Settle o) s' ->
        Chat.history (Chat.ui s') = Chat.history (Chat.ui s)).
Proof.
  intros Hlim Hreach.
  pose proof (reachable_serialized cfg Hlim loaded s Hreach) as Hs.
  split; [|split; [|split]].
  - destruct Hs as [[_ E] | [_ (rq & older & E & _)]]; rewrite E; simpl; lia.
  - intros Hpending s' Hstep.
    destruct Hs as [[_ E] | [Hload _]]; [congruence|].
    inversion Hstep; subst. simpl.
    rewrite (start_while_loading cfg _ Hload). simpl.
    now rewrite app_nil_r.
  - intros rq a srcs s' Hin Ha Hstep.
    destruct Hs as [[_ E] | [_ (rq' & older & E & Hh)]]; [congruence|].
    assert (rq' = rq) by congruence. subst rq'.
    inversion Hstep; subst. simpl.
    split; [congruence|].
    exact (finish_appends_answer cfg Hlim _ _ _ srcs older Ha Hh).
  - intros o s' Ho Hstep. inversion Hstep; subst. simpl.
    now apply finish_without_answer.
Qed.

Lemma one_query_in_flight_witness :
  0 < Chat.HISTORY_LIMIT Chat.CONFIG
  /\ exists s,
      Chat.reachable Chat.CONFIG [] s
      /\ Chat.in_flight s <> []
      /\ (length (Chat.in_flight s) <= 1)%nat.
Proof.
  split; [reflexivity|].
  eassert (R : Chat.reachable Chat.CONFIG [] _).
  { eapply Chat.reach_step;
      [eapply Chat.reach_step;
         [apply Chat.reach_init | apply (Chat.step_input _ _ (JS.lit "oi"))]
      | apply Chat.step_submit]. }
  eexists. split; [exact R|]. split; [vm_compute; discriminate|].
  exact (proj1 (one_query_in_flight Chat.CONFIG [] _ eq_refl R)).
Defined.

(** C5 as stated, with every user turn followed by its assistant turn,
    fails: after a request that throws, nothing is pending and the history
    holds the user turn alone; the error is shown in the transcript only. *)
Lemma user_turn_without_answer :
  exists s,
    Chat.reachable Chat.CONFIG [] s
    /\ Chat.in_flight s = []
    /\ Chat.history (Chat.ui s) =
       [ {| Chat.t_role := Chat.user; Chat.t_content := JS.lit "oi" |} ]
    /\ ~ Chat.every_user_turn_answered (Chat.history (Chat.ui s)).
Proof.
  eassert (R : Chat.reachable Chat.CONFIG [] _).
  { eapply Chat.reach_step;
      [eapply Chat.reach_step;
         [eapply Chat.reach_step;
            [apply Chat.reach_init
            | apply (Chat.step_input _ _ (JS.lit "oi"))]
         | apply Chat.step_submit]
      | eapply (Chat.step_settle _ _ _ _ (Chat.Threw (JS.lit "Failed to fetch")));
        reflexivity]. }
  eexists. split; [exact R|]. split; [reflexivity|]. split; [reflexivity|].
  intros H. destruct (H 0%nat (JS.lit "oi") eq_refl) as (a & Ha).
  discriminate Ha.
Qed.

(* ===================================================================== *)
(** ** Outcome aggregation                                               *)
(* ===================================================================== *)

Section Aggregation.
Import JS Core.
Local Open Scope Q_scope.

(** Every hit carries exactly one of the five labels. *)
Lemma total_count_labels hits : total_count labels hits = length hits.
Proof.
  unfold total_count, labels, count_label. simpl.
  induction hits as [|h hits IH]; [reflexivity|].
  rewrite !filter_cons. simpl length at 6. rewrite <- IH.
  destruct (decision (record h)); simpl;
    repeat case_decide; try congruence; simpl; lia.
Qed.

Lemma percentage_of_add a b n :
  n <> 0%nat ->
  percentage_of (a + b) n == percentage_of a n + percentage_of b n.
Proof.
  intros Hn. unfold percentage_of.
  rewrite Nat2Z.inj_add, inject_Z_plus. field.
  intros E. apply (Hn).
  assert (Z.of_nat n = 0%Z) as E0.
  { unfold Qeq in E. simpl in E. lia. }
  lia.
Qed.

Lemma sum_percentages_entries hits ls :
  hits <> [] ->
  sum_percentages (flat_map (entry_for hits) ls)
  == percentage_of (total_count ls hits) (length hits).
Proof.
  intros Hne.
  assert (Hn : length hits <> 0%nat) by (destruct hits; simpl; congruence).
  induction ls as [|l ls IH]; simpl.
  - unfold percentage_of. simpl. field.
    intros E. unfold Qeq in E. simpl in E. lia.
  - rewrite percentage_of_add by exact Hn. rewrite <- IH.
    unfold entry_for at 1.
    destruct (count_label l hits) as [|c]; simpl.
    + unfold percentage_of at 1. simpl. field.
      intros E. unfold Qeq in E. simpl in E. lia.
    + reflexivity.
Qed.

Lemma percentage_of_all n : n <> 0%nat -> percentage_of n n == 100.
Proof.
  intros Hn. unfold percentage_of. field.
  intros E. unfold Qeq in E. simpl in E. lia.
Qed.

(** The entries form a mapping: no label occurs twice. *)
Lemma entries_labels_NoDup hits :
  NoDup (map fst (flat_map (entry_for hits) labels)).
Proof.
  unfold labels, entry_for. simpl.
  destruct (count_label Granted hits), (count_label Denied hits),
           (count_label PartiallyGranted hits), (count_label NotKnown hits),
           (count_label Moot hits); simpl;
    repeat (constructor; [rewrite list_elem_of_In; simpl; intuition discriminate|]);
    constructor.
Qed.

Lemma lookup_label_entries hits l :
  lookup_label l (flat_map (entry_for hits) labels) =
  match count_label l hits with
  | O => None
  | c => Some {| count := c; percentage := percentage_of c (length hits) |}
  end.
Proof.
  unfold labels, lookup_label. simpl. unfold entry_for.
  destruct (count_label Granted hits) eqn:E1,
           (count_label Denied hits) eqn:E2,
           (count_label PartiallyGranted hits) eqn:E3,
           (count_label NotKnown hits) eqn:E4,
           (count_label Moot hits) eqn:E5;
    destruct l; simpl; rewrite ?E1, ?E2, ?E3, ?E4, ?E5; reflexivity.
Qed.
End Aggregation.

(** C7. For a non-empty set of appeal hits [aggregate] succeeds; a label
    has an entry exactly when it occurs among the hits, with its count and
    the percentage [100 * count / total]; no label has two entries; and the
    percentages add up to 100, in particular to 100 within 0.1. *)
Theorem aggregate_percentages (hits : list (Core.Hit Core.Appeal)) :
  hits <> [] ->
  exists stats,
    Core.aggregate hits = inl stats
    /\ (forall l,
          Core.lookup_label l (Core.entries stats) =
          match Core.count_label l hits with
          | O => None
          | c => Some {| Core.count := c;
                         Core.percentage :=
                           Core.percentage_of c (length hits) |}
          end)
    /\ NoDup (map fst (Core.entries stats))
    /\ (Core.sum_percentages (Core.entries stats) == 100)%Q
    /\ (Qabs (Core.sum_percentages (Core.entries stats) - 100) <= 1 # 10)%Q.
Proof.
  intros Hne.
  exists {| Core.entries := flat_map (Core.entry_for hits) Core.labels;
            Core.predictedLabel := Core.most_frequent hits |}.
  assert (Hsum : (Core.sum_percentages
                    (flat_map (Core.entry_for hits) Core.labels) == 100)%Q).
  { rewrite sum_percentages_entries by exact Hne.
    rewrite total_count_labels. apply percentage_of_all.
    destruct hits; simpl; congruence. }
  split; [destruct hits; [congruence | reflexivity]|].
  split; [intros l; apply lookup_label_entries|].
  split; [apply entries_labels_NoDup|].
  split; [exact Hsum|].
  simpl Core.entries. rewrite Hsum. vm_compute. discriminate.
Qed.

Lemma aggregate_percentages_witness :
  let hit l := {| Core.record :=
                    {| Core.ap_id := 1; Core.decision := l;
                       Core.instance := []; Core.description := [];
                       Core.ap_responseText := [];
                       Core.relatedProtocol := None |};
                  Core.similarityScore := 1 |} in
  let hits := [hit Core.Denied; hit Core.Denied; hit Core.Granted] in
  hits <> []
  /\ exists stats,
       Core.aggregate hits = inl stats
       /\ (Core.sum_percentages (Core.entries stats) == 100)%Q.
Proof.
  cbv zeta. split; [discriminate|].
  edestruct aggregate_percentages as (stats & E & _ & _ & Hsum & _);
    [|exists stats; split; [exact E | exact Hsum]].
  discriminate.
Defined.

(* ===================================================================== *)
(** ** Cross-reference join                                              *)
(* ===================================================================== *)

Section Join.
Import JS Core.

Lemma insert_by_In {A} (key : A -> Q) x y (l : list A) :
  In y (insert_by key x l) <-> y = x \/ In y l.
Proof.
  induction l as [|z l IH]; simpl.
  - intuition congruence.
  - destruct (Qlt_bool (key z) (key x)); simpl; [intuition congruence|].
    rewrite IH. intuition congruence.
Qed.

(** Sorting neither adds nor loses an element. *)
Lemma sort_desc_In {A} (key : A -> Q) y (l : list A) :
  In y (sort_desc key l) <-> In y l.
Proof.
  induction l as [|x l IH]; simpl; [tauto|].
  rewrite insert_by_In, IH. intuition congruence.
Qed.

Lemma sort_desc_length {A} (key : A -> Q) (l : list A) :
  length (sort_desc key l) = length l.
Proof.
  induction l as [|x l IH]; simpl; [reflexivity|].
  rewrite <- IH. generalize (sort_desc key l). intros s.
  induction s as [|z s IHs]; simpl; [reflexivity|].
  destruct (Qlt_bool (key z) (key x)); simpl; [reflexivity|].
  now rewrite IHs.
Qed.

Lemma In_take {A} n (l : list A) x : In x (take n l) -> In x l.
Proof.
  revert l. induction n as [|n IH]; intros [|y l]; simpl; try tauto.
  intros [E|H]; [now left | right; now apply IH].
Qed.
End Join.

(** C8. Every pair returned by the cross-reference join consists of a
    Request that the candidate search returned and of an Appeal that was
    resolved for that very Request; so each Request of the result resolved
    at least one linked Appeal, and the result holds at most [topK]
    pairs. *)
Theorem crossReference_is_intersection
    (searchRequests : JS.str -> nat -> Q -> list (Core.Hit Core.Request))
    (searchAppeals : JS.str -> nat -> Q -> list (Core.Hit Core.Appeal))
    (appeals : list Core.Appeal) (cfg : Core.JoinConfig)
    (topicQuery : JS.str) (topK : nat)
    (p : Core.Hit Core.Request * Core.Hit Core.Appeal) :
  In p (Core.crossReference searchRequests searchAppeals appeals cfg
          topicQuery topK) ->
  In (fst p) (searchRequests topicQuery (Core.widen cfg * topK)%nat
                (Core.candidateMinScore cfg))
  /\ Core.resolve searchAppeals appeals cfg topK (Core.record (fst p)) <> []
  /\ In (snd p)
        (Core.resolve searchAppeals appeals cfg topK (Core.record (fst p)))
  /\ (length (Core.crossReference searchRequests searchAppeals appeals cfg
                topicQuery topK) <= topK)%nat.
Proof.
  unfold Core.crossReference. intros Hin.
  assert (Hlen : forall l : list (Core.Hit Core.Request * Core.Hit Core.Appeal),
            (length (take topK l) <= topK)%nat)
    by (intros l; rewrite length_take; lia).
  apply In_take, sort_desc_In, in_flat_map in Hin.
  destruct Hin as (c & Hc & Hp).
  apply in_map_iff in Hp. destruct Hp as (a & <- & Ha). simpl.
  apply list_elem_of_In, list_elem_of_filter in Hc. destruct Hc as [Hres Hc].
  apply list_elem_of_In in Hc.
  repeat split; try assumption. apply Hlen.
Qed.

Lemma crossReference_is_intersection_witness :
  let rq := {| Core.record :=
                 {| Core.rq_id := 7; Core.protocol := JS.lit "P1";
                    Core.summary := JS.lit "enchentes";
                    Core.rq_responseText := []; Core.agency := [];
                    Core.filingDate := [] |};
               Core.similarityScore := 4 # 5 |} in
  let ap := {| Core.ap_id := 3; Core.decision := Core.Denied;
               Core.instance := []; Core.description := [];
               Core.ap_responseText := [];
               Core.relatedProtocol := Some (JS.lit "P1") |} in
  let cfg := {| Core.widen := 3; Core.candidateMinScore := 1 # 2;
                Core.strictMinScore := 7 # 10; Core.explicitLinks := true;
                Core.linkScore := 1 |} in
  let p := (rq, {| Core.record := ap; Core.similarityScore := 1 |}) in
  In p (Core.crossReference (fun _ _ _ => [rq]) (fun _ _ _ => []) [ap] cfg
          (JS.lit "enchentes com recurso") 5)
  /\ Core.resolve (fun _ _ _ => []) [ap] cfg 5 (Core.record rq) <> [].
Proof.
  cbv zeta.
  match goal with |- ?H /\ _ => assert (Hin : H) by (vm_compute; now left) end.
  split; [exact Hin|].
  exact (proj1 (proj2 (crossReference_is_intersection _ _ _ _ _ _ _ Hin))).
Defined.

(* ===================================================================== *)
(** ** Message formatting (app.js)                                       *)
(* ===================================================================== *)

Section Replace.
Import JS Chat.
Variable m : matcher.
Variable template : str -> str.
Hypothesis m_shrinks : shrinking m.

(** Any fuel that covers the length of the string gives the same
    result: [replace_all] never runs out. *)
Lemma replace_loop_enough f1 : forall f2 s,
  (length s <= f1)%nat -> (length s <= f2)%nat ->
  replace_loop f1 m template s = replace_loop f2 m template s.
Proof.
  induction f1 as [|f1 IH]; intros f2 [|c tl] H1 H2;
    try (now destruct f2).
  destruct f2 as [|f2]; [simpl in H2; lia|].
  simpl. destruct (m (c :: tl)) as [[g rest]|] eqn:E.
  - apply m_shrinks in E. simpl in *. f_equal. apply IH; lia.
  - simpl in *. f_equal. apply IH; lia.
Qed.

Lemma replace_all_nil : replace_all m template [] = [].
Proof. reflexivity. Qed.

(** The equation of the global replacement. *)
Lemma replace_all_cons c tl :
  replace_all m template (c :: tl) =
  match m (c :: tl) with
  | Some (g, rest) => template g ++ replace_all m template rest
  | None => c :: replace_all m template tl
  end.
Proof.
  unfold replace_all. simpl.
  destruct (m (c :: tl)) as [[g rest]|] eqn:E.
  - f_equal. apply m_shrinks in E. simpl in E.
    apply replace_loop_enough; lia.
  - reflexivity.
Qed.

Hypothesis m_tags : tags_only m template.

Lemma replace_all_rewrites s : rewrites s (replace_all m template s).
Proof.
  remember (length s) as n eqn:En. revert s En.
  induction n as [n IH] using lt_wf_ind. intros [|c tl] En.
  - constructor.
  - rewrite replace_all_cons.
    destruct (m (c :: tl)) as [[g rest]|] eqn:E.
    + apply (m_tags _ _ _ E).
      apply (IH (length rest)); [|reflexivity].
      apply m_shrinks in E. lia.
    + constructor. apply (IH (length tl)); [|reflexivity].
      simpl in En. lia.
Qed.
End Replace.

Section Matchers.
Import JS Chat.

Lemma ascii_eqb_true a b : ascii_eqb a b = true -> a = b.
Proof. apply Ascii.eqb_eq. Qed.

Lemma lazy_until_stars_shape s : forall g rest,
  lazy_until_stars s = Some (g, rest) ->
  s = g ++ "*"%char :: "*"%char :: rest.
Proof.
  induction s as [|c tl IH]; intros g rest H; simpl in H; [discriminate|].
  destruct (ascii_eqb c "*") eqn:Ec.
  - destruct tl as [|c2 tl2].
    + destruct (is_line_terminator c); [discriminate|].
      simpl in H. discriminate.
    + destruct (ascii_eqb c2 "*") eqn:Ec2.
      * injection H as <- <-.
        apply ascii_eqb_true in Ec, Ec2. now subst.
      * destruct (is_line_terminator c); [discriminate|].
        destruct (lazy_until_stars (c2 :: tl2)) as [[g' rest']|] eqn:E;
          [|discriminate].
        injection H as <- <-. simpl. f_equal. now apply IH.
  - destruct (is_line_terminator c); [discriminate|].
    destruct (lazy_until_stars tl) as [[g' rest']|] eqn:E; [|discriminate].
    injection H as <- <-. simpl. f_equal. now apply IH.
Qed.

Lemma lazy_until_star_shape s : forall g rest,
  lazy_until_star s = Some (g, rest) -> s = g ++ "*"%char :: rest.
Proof.
  induction s as [|c tl IH]; intros g rest H; simpl in H; [discriminate|].
  destruct (ascii_eqb c "*") eqn:Ec.
  - injection H as <- <-. apply ascii_eqb_true in Ec. now subst.
  - destruct (is_line_terminator c); [discriminate|].
    destruct (lazy_until_star tl) as [[g' rest']|] eqn:E; [|discriminate].
    injection H as <- <-. simpl. f_equal. now apply IH.
Qed.

Lemma match_bold_shape s g rest :
  match_bold s = Some (g, rest) -> s = lit "**" ++ g ++ lit "**" ++ rest.
Proof.
  destruct s as [|a [|b tl]]; simpl; try discriminate.
  destruct (ascii_eqb a "*") eqn:Ea; [|discriminate].
  destruct (ascii_eqb b "*") eqn:Eb; [|discriminate]. simpl.
  intros H. apply lazy_until_stars_shape in H.
  apply ascii_eqb_true in Ea, Eb. now subst.
Qed.

Lemma match_italic_shape s g rest :
  match_italic s = Some (g, rest) -> s = lit "*" ++ g ++ lit "*" ++ rest.
Proof.
  destruct s as [|a tl]; simpl; try discriminate.
  destruct (ascii_eqb a "*") eqn:Ea; [|discriminate].
  intros H. apply lazy_until_star_shape in H.
  apply ascii_eqb_true in Ea. now subst.
Qed.

Lemma take_drop_while {A} (p : A -> bool) (l : list A) :
  take_while p l ++ drop_while p l = l.
Proof.
  induction l as [|x l IH]; simpl; [reflexivity|].
  destruct (p x); simpl; [now rewrite IH | reflexivity].
Qed.

Lemma drop_while_head {A} (p : A -> bool) (l : list A) x tl :
  drop_while p l = x :: tl -> p x = false.
Proof.
  induction l as [|y l IH]; simpl; [discriminate|].
  destruct (p y) eqn:E; [exact IH|]. intros H. now injection H as <- <-.
Qed.

Lemma match_code_shape s g rest :
  match_code s = Some (g, rest) -> s = lit "`" ++ g ++ lit "`" ++ rest.
Proof.
  destruct s as [|a tl]; simpl; try discriminate.
  destruct (ascii_eqb a "`") eqn:Ea; [|discriminate].
  destruct (take_while not_backtick tl) as [|g0 gs] eqn:Et; [discriminate|].
  destruct (drop_while not_backtick tl) as [|b rest'] eqn:Ed; [discriminate|].
  intros H. injection H as <- <-.
  apply drop_while_head in Ed as Hb. unfold not_backtick in Hb.
  apply negb_false_iff, ascii_eqb_true in Hb.
  apply ascii_eqb_true in Ea. subst a b.
  rewrite <- (take_drop_while not_backtick tl), Et, Ed. reflexivity.
Qed.

Lemma match_newline_shape s g rest :
  match_newline s = Some (g, rest) ->
  g = [] /\ exists c, code c = 10%nat /\ s = c :: rest.
Proof.
  destruct s as [|a tl]; simpl; try discriminate.
  destruct (Nat.eqb_spec (code a) 10); [|discriminate].
  intros H. injection H as <- <-. split; [reflexivity|]. now exists a.
Qed.

Lemma rewrites_keep_app g s o : rewrites s o -> rewrites (g ++ s) (g ++ o).
Proof. intros H. induction g; simpl; [exact H | now constructor]. Qed.

(** Two runs of delimiters around a kept group become two tags. *)
Lemma rewrites_wrapped d1 ds1 d2 ds2 t1 t2 g rest o :
  Forall (fun c => is_delim c = true) (d1 :: ds1) ->
  Forall (fun c => is_delim c = true) (d2 :: ds2) ->
  In t1 format_tags -> In t2 format_tags ->
  rewrites rest o ->
  rewrites ((d1 :: ds1) ++ g ++ (d2 :: ds2) ++ rest)
           ((t1 ++ g ++ t2) ++ o).
Proof.
  intros H1 H2 Ht1 Ht2 Hr.
  rewrite <- !app_assoc. simpl.
  inversion H1; subst. inversion H2; subst.
  apply rw_tag; try assumption.
  apply rewrites_keep_app. simpl.
  apply rw_tag; assumption.
Qed.

Ltac delims := repeat constructor.
Ltac tag_mem := simpl; tauto.

Lemma bold_shrinking : shrinking match_bold.
Proof.
  intros s g rest H. apply match_bold_shape in H. subst s.
  rewrite !length_app. simpl. lia.
Qed.

Lemma bold_tags_only : tags_only match_bold (wrap "strong").
Proof.
  intros s g rest H o Ho. apply match_bold_shape in H. subst s.
  apply (rewrites_wrapped "*" ["*"%char] "*" ["*"%char]);
    [delims | delims | tag_mem | tag_mem | exact Ho].
Qed.

Lemma italic_shrinking : shrinking match_italic.
Proof.
  intros s g rest H. apply match_italic_shape in H. subst s.
  rewrite !length_app. simpl. lia.
Qed.

Lemma italic_tags_only : tags_only match_italic (wrap "em").
Proof.
  intros s g rest H o Ho. apply match_italic_shape in H. subst s.
  apply (rewrites_wrapped "*" [] "*" []);
    [delims | delims | tag_mem | tag_mem | exact Ho].
Qed.

Lemma code_shrinking : shrinking match_code.
Proof.
  intros s g rest H. apply match_code_shape in H. subst s.
  rewrite !length_app. simpl. lia.
Qed.

Lemma code_tags_only : tags_only match_code (wrap "code").
Proof.
  intros s g rest H o Ho. apply match_code_shape in H. subst s.
  apply (rewrites_wrapped "`" [] "`" []);
    [delims | delims | tag_mem | tag_mem | exact Ho].
Qed.

Lemma newline_shrinking : shrinking match_newline.
Proof.
  intros s g rest H. apply match_newline_shape in H.
  destruct H as (_ & c & _ & ->). simpl. lia.
Qed.

Lemma newline_tags_only : tags_only match_newline (fun _ => lit "<br>").
Proof.
  intros s g rest H o Ho. apply match_newline_shape in H.
  destruct H as (_ & c & Hc & ->).
  apply (rw_tag c [] (lit "<br>") rest o); [|constructor|tag_mem|exact Ho].
  unfold is_delim. rewrite Hc. now rewrite orb_true_r.
Qed.
End Matchers.

Section Markup.
Import JS Chat.

Lemma pieces_ok p : In p pieces -> piece_ok p = true.
Proof.
  assert (H : forallb piece_ok pieces = true) by reflexivity.
  rewrite forallb_forall in H. apply H.
Qed.

Lemma piece_no_delim p :
  In p pieces -> forallb (fun x => negb (is_delim x)) p = true.
Proof.
  intros H. apply pieces_ok in H. destruct p as [|c tl]; [discriminate|].
  unfold piece_ok in H. now apply andb_true_iff in H.
Qed.

Lemma built_from_mono P P' s :
  (forall p, In p P -> In p P') -> built_from P s -> built_from P' s.
Proof.
  intros Hsub. induction 1; [constructor | now constructor |].
  apply bf_piece; auto.
Qed.

(** [escapeHtml] leaves no special character of HTML outside an entity. *)
Lemma escapeHtml_built text : built_from entities (escapeHtml text).
Proof.
  induction text as [|c text IH]; simpl; [constructor|].
  unfold escape_char.
  destruct (ascii_eqb c "&") eqn:Eamp;
    [apply bf_piece; [simpl; tauto | exact IH]|].
  destruct (code c =? 160)%nat;
    [apply bf_piece; [simpl; tauto | exact IH]|].
  destruct (ascii_eqb c "<") eqn:Elt;
    [apply bf_piece; [simpl; tauto | exact IH]|].
  destruct (ascii_eqb c ">") eqn:Egt;
    [apply bf_piece; [simpl; tauto | exact IH]|].
  simpl. apply bf_char; [|exact IH].
  unfold plain_char. now rewrite Eamp, Elt, Egt.
Qed.

(** A piece is copied as it stands. *)
Lemma piece_copied p : forall s o,
  forallb (fun x => negb (is_delim x)) p = true ->
  rewrites (p ++ s) o -> exists o', o = p ++ o' /\ rewrites s o'.
Proof.
  induction p as [|a p IH]; intros s o Hp Hr; simpl in *.
  - now exists o.
  - apply andb_true_iff in Hp. destruct Hp as [Ha Hp].
    inversion Hr as [|c s0 o0 Hr0|d ds t s0 o0 Hd]; subst.
    + destruct (IH _ _ Hp Hr0) as (o' & -> & Ho'). now exists o'.
    + rewrite Hd in Ha. discriminate.
Qed.

(** Delimiters in front of a well-formed text can be dropped. *)
Lemma peel_delims ds : forall s,
  Forall (fun c => is_delim c = true) ds ->
  built_from pieces (ds ++ s) -> built_from pieces s.
Proof.
  induction ds as [|d ds IH]; intros s Hds Hb; simpl in *; [exact Hb|].
  inversion Hds as [|? ? Hd Hds']; subst.
  apply IH; [exact Hds'|].
  remember (d :: ds ++ s) as l eqn:El.
  destruct Hb as [|c s0 Hc Hs0|p s0 Hp Hs0].
  - discriminate.
  - injection El as -> ->. exact Hs0.
  - apply piece_no_delim in Hp as Hnd.
    destruct p as [|c p]; simpl in *.
    + apply pieces_ok in Hp. discriminate.
    + injection El as -> E.
      apply andb_true_iff in Hnd. destruct Hnd as [Hnd _].
      rewrite Hd in Hnd. discriminate.
Qed.

(** Replacing delimiters by tags keeps a text well formed. *)
Lemma built_from_rewrites s :
  built_from pieces s -> forall o, rewrites s o -> built_from pieces o.
Proof.
  induction 1 as [|c s Hc Hs IH|p s Hp Hs IH]; intros o Hr.
  - inversion Hr. constructor.
  - inversion Hr as [|c' s0 o0 Hr0|d ds t s0 o0 Hd Hds Ht Hr0]; subst.
    + apply bf_char; auto.
    + apply bf_piece; [apply in_or_app; now right|].
      apply (peel_delims ds); [exact Hds|].
      apply IH. now apply rewrites_keep_app.
  - destruct (piece_copied p s o (piece_no_delim p Hp) Hr) as (o' & -> & Ho').
    apply bf_piece; auto.
Qed.

Lemma no_lt_inside l pre post :
  forallb (fun x => negb (ascii_eqb x "<")) l = true ->
  l <> pre ++ "<"%char :: post.
Proof.
  intros Hl E. subst l. rewrite forallb_app in Hl.
  apply andb_true_iff in Hl. destruct Hl as [_ Hl]. simpl in Hl.
  discriminate.
Qed.

(** An angle bracket of a piece opens one of the formatter's tags. *)
Lemma piece_lt p pre post :
  In p pieces -> p = pre ++ "<"%char :: post ->
  pre = [] /\ In p format_tags.
Proof.
  intros Hp E. pose proof (pieces_ok p Hp) as Hok.
  destruct pre as [|c pre].
  - split; [reflexivity|].
    apply in_app_or in Hp. destruct Hp as [Hp|Hp]; [|exact Hp].
    simpl in Hp. subst p.
    repeat (destruct Hp as [Hp|Hp]; [discriminate Hp|]). destruct Hp.
  - subst p. simpl in Hok. apply andb_true_iff in Hok.
    destruct Hok as [_ Hok].
    exfalso. eapply no_lt_inside; [exact Hok | reflexivity].
Qed.

Lemma built_from_lt s :
  built_from pieces s ->
  forall pre post, s = pre ++ "<"%char :: post ->
  exists t post', In t format_tags /\ "<"%char :: post = t ++ post'.
Proof.
  induction 1 as [|c s Hc Hs IH|p s Hp Hs IH]; intros pre post E.
  - destruct pre; discriminate.
  - destruct pre as [|c' pre]; simpl in E.
    + injection E as -> _. discriminate.
    + injection E as -> E. eapply IH; exact E.
  - apply app_eq_app in E. destruct E as (l & [[E1 E2]|[E1 E2]]).
    + destruct l as [|x l]; simpl in E2.
      * apply (IH []). simpl. now symmetry.
      * injection E2 as <- ->.
        destruct (piece_lt p pre l Hp E1) as [-> Ht].
        simpl in E1. exists p, s. split; [exact Ht|].
        rewrite E1. reflexivity.
    + eapply IH; exact E2.
Qed.
End Markup.

(** C10. [formatMessage] escapes the content first and applies the four
    substitutions to the escaped text.  The escaped text holds no [<], [>]
    or [&] outside an entity; the rendered message consists of plain
    characters, entities and the tags of the formatter only; and every [<]
    in it opens one of these tags. *)
Theorem formatMessage_no_raw_html (content : JS.str) :
  Chat.formatMessage content =
    Chat.replace_all Chat.match_newline (fun _ => JS.lit "<br>")
      (Chat.replace_all Chat.match_code (Chat.wrap "code")
        (Chat.replace_all Chat.match_italic (Chat.wrap "em")
          (Chat.replace_all Chat.match_bold (Chat.wrap "strong")
            (Chat.escapeHtml content))))
  /\ Chat.built_from Chat.entities (Chat.escapeHtml content)
  /\ Chat.built_from Chat.pieces (Chat.formatMessage content)
  /\ forall pre post,
       Chat.formatMessage content = pre ++ "<"%char :: post ->
       exists t post', In t Chat.format_tags /\ "<"%char :: post = t ++ post'.
Proof.
  assert (Hb : Chat.built_from Chat.pieces (Chat.formatMessage content)).
  { unfold Chat.formatMessage.
    eapply built_from_rewrites;
      [|apply replace_all_rewrites;
          [apply newline_shrinking | apply newline_tags_only]].
    eapply built_from_rewrites;
      [|apply replace_all_rewrites;
          [apply code_shrinking | apply code_tags_only]].
    eapply built_from_rewrites;
      [|apply replace_all_rewrites;
          [apply italic_shrinking | apply italic_tags_only]].
    eapply built_from_rewrites;
      [|apply replace_all_rewrites;
          [apply bold_shrinking | apply bold_tags_only]].
    eapply built_from_mono; [|apply escapeHtml_built].
    intros p Hp. apply in_or_app. now left. }
  split; [reflexivity|]. split; [apply escapeHtml_built|].
  split; [exact Hb|].
  intros pre post E. eapply built_from_lt; [exact Hb | exact E].
Qed.

(* ===================================================================== *)
(** ** Worked examples                                                   *)
(* ===================================================================== *)

(** Markup typed by the user is escaped; the markers become tags. *)
Example formatMessage_script :
  Chat.formatMessage (JS.lit "<b>x</b> **y** & `z`") =
  JS.lit "&lt;b&gt;x&lt;/b&gt; <strong>y</strong> &amp; <code>z</code>".
Proof. reflexivity. Qed.

(** The lazy group of the bold expression stops at the first closing pair;
    the italic expression then pairs the stars that are left. *)
Example formatMessage_stars :
  Chat.formatMessage (JS.lit "***a***") = JS.lit "<strong><em>a</strong></em>".
Proof. reflexivity. Qed.

Example parseInt_samples :
  map (JS.parseInt JS.Fin)
      [JS.lit "42"; JS.lit "  -7px"; JS.lit "0x1f"; JS.lit ""; JS.lit "abc";
       JS.lit "0x"]
  = [JS.Fin (inject_Z 42); JS.Fin (- inject_Z 7); JS.Fin (inject_Z 31);
     JS.NaN; JS.NaN; JS.NaN].
Proof. reflexivity. Qed.

Example parseFloat_samples :
  map (JS.parseFloat JS.Fin)
      [JS.lit ""; JS.lit "."; JS.lit "e5"; JS.lit "Infinity"; JS.lit "-Infinity"]
  = [JS.NaN; JS.NaN; JS.NaN; JS.PosInf; JS.NegInf].
Proof. reflexivity. Qed.

(** A zero typed into the quantity field is replaced like an empty one. *)
Example zero_top_k_coerced :
  AppealAnalysis.top_k (AppealAnalysis.form
    (AppealAnalysis.handleInputChange JS.Fin "top_k" (JS.lit "0")
       AppealAnalysis.initial_state)) = JS.Fin 1.
Proof. reflexivity. Qed.

(** Scenario A of the specification: Denied, Denied, Granted. *)
Example aggregate_scenario_A :
  let hit l := {| Core.record :=
                    {| Core.ap_id := 1; Core.decision := l;
                       Core.instance := []; Core.description := [];
                       Core.ap_responseText := [];
                       Core.relatedProtocol := None |};
                  Core.similarityScore := 1 |} in
  exists stats pd pg,
    Core.aggregate [hit Core.Denied; hit Core.Denied; hit Core.Granted]
      = inl stats
    /\ Core.predictedLabel stats = Core.Denied
    /\ Core.lookup_label Core.Denied (Core.entries stats)
       = Some {| Core.count := 2; Core.percentage := pd |}
    /\ Core.lookup_label Core.Granted (Core.entries stats)
       = Some {| Core.count := 1; Core.percentage := pg |}
    /\ (pd == 200 # 3)%Q /\ (pg == 100 # 3)%Q
    /\ Core.lookup_label Core.Moot (Core.entries stats) = None.
Proof.
  cbv zeta. eexists _, _, _.
  split; [reflexivity|]. split; [reflexivity|].
  split; [reflexivity|]. split; [reflexivity|].
  split; [reflexivity|]. split; reflexivity.
Qed.

(** Aggregating nothing fails. *)
Example aggregate_empty : Core.aggregate [] = inr Core.InsufficientEvidence.
Proof. reflexivity. Qed.

(** Scenario C of the specification: no candidate has a linked Appeal. *)
Lemma crossReference_no_links
    (searchRequests : JS.str -> nat -> Q -> list (Core.Hit Core.Request))
    (searchAppeals : JS.str -> nat -> Q -> list (Core.Hit Core.Appeal))
    (cfg : Core.JoinConfig) (topicQuery : JS.str) (topK : nat) :
  Core.explicitLinks cfg = true ->
  Core.crossReference searchRequests searchAppeals [] cfg topicQuery topK = [].
Proof.
  intros Hl. unfold Core.crossReference.
  generalize (searchRequests topicQuery (Core.widen cfg * topK)%nat
                (Core.candidateMinScore cfg)).
  intros cands.
  assert (E : filter (fun c : Core.Hit Core.Request =>
                        Core.resolve searchAppeals [] cfg topK (Core.record c)
                        <> []) cands = []).
  { induction cands as [|c cands IH]; [reflexivity|].
    rewrite filter_cons. case_decide as Hc; [|exact IH].
    unfold Core.resolve in Hc. rewrite Hl in Hc. simpl in Hc. congruence. }
  rewrite E. simpl. now destruct topK.
Qed.

(** A short text is shown whole, a long one is cut and marked. *)
Example excerpt_samples :
  renderExpandableText_body ∅ (JS.lit "abcdef") (JS.lit "response-1") 4
    = WithToggle (JS.lit "abcd...") (JS.lit "Ver mais")
  /\ renderExpandableText_body ∅ (JS.lit "abcd") (JS.lit "response-1") 4
    = Span (JS.lit "abcd").
Proof. split; reflexivity. Qed.

(* ===================================================================== *)
(** ** Further properties: trimming                                      *)
(* ===================================================================== *)

Section TrimFacts.
Import JS.

Lemma drop_while_all {A} (p : A -> bool) (l : list A) :
  Forall (fun x => p x = true) l -> drop_while p l = [].
Proof.
  induction 1 as [|x l Hx _ IH]; simpl; [reflexivity|]. now rewrite Hx.
Qed.

Lemma drop_while_nil {A} (p : A -> bool) (l : list A) :
  drop_while p l = [] -> Forall (fun x => p x = true) l.
Proof.
  induction l as [|x l IH]; simpl; [constructor|].
  destruct (p x) eqn:E; [|discriminate].
  intros H. constructor; auto.
Qed.

Lemma drop_while_snoc {A} (p : A -> bool) (l : list A) (c : A) :
  p c = false -> drop_while p (l ++ [c]) = drop_while p l ++ [c].
Proof.
  intros Hc. induction l as [|x l IH]; simpl.
  - now rewrite Hc.
  - destruct (p x); [exact IH | reflexivity].
Qed.

Lemma trimEnd_cons c t :
  is_whitespace c = false -> trimEnd (c :: t) = c :: trimEnd t.
Proof.
  intros Hc. unfold trimEnd. simpl rev.
  rewrite drop_while_snoc by exact Hc. apply rev_unit.
Qed.

(** A string of white space trims to nothing, and only such a string. *)
Lemma trim_nil_iff s :
  trim s = [] <-> Forall (fun c => is_whitespace c = true) s.
Proof.
  unfold trim, trimStart. split.
  - intros H. apply drop_while_nil.
    destruct (drop_while is_whitespace s) as [|c u] eqn:E; [reflexivity|].
    apply drop_while_head in E.
    rewrite (trimEnd_cons _ _ E) in H. discriminate.
  - intros H. now rewrite drop_while_all.
Qed.

(** What [trim] returns neither starts nor ends with white space. *)
Lemma trim_edges s c t :
  trim s = c :: t ->
  is_whitespace c = false
  /\ exists init x, trim s = init ++ [x] /\ is_whitespace x = false.
Proof.
  unfold trim, trimStart. intros H. split.
  - destruct (drop_while is_whitespace s) as [|c0 u] eqn:E;
      [discriminate|].
    apply drop_while_head in E.
    rewrite (trimEnd_cons _ _ E) in H. now injection H as <- _.
  - rewrite H. unfold trimEnd in H.
    destruct (drop_while is_whitespace (rev (drop_while is_whitespace s)))
      as [|x r] eqn:E; [discriminate|].
    apply drop_while_head in E as Hx.
    exists (rev r), x. split; [|exact Hx].
    rewrite <- H. reflexivity.
Qed.
End TrimFacts.

(* ===================================================================== *)
(** ** Further properties: the chat page (app.js)                        *)
(* ===================================================================== *)

Section ChatSession.
Import JS Chat.
Variable cfg : config.

Lemma start_controls st :
  controlsEnabled st = negb (isLoading st) ->
  controlsEnabled (fst (handleFormSubmit_start cfg st))
  = negb (isLoading (fst (handleFormSubmit_start cfg st))).
Proof.
  intros H. unfold handleFormSubmit_start.
  destruct (negb (str_truthy (trim (messageInput st))) || isLoading st);
    simpl; [exact H | reflexivity].
Qed.


End ChatSession.

(** X1. In every state the chat page can reach, the send button and the
    input are enabled exactly when no request is being awaited. *)
Theorem controls_follow_loading (cfg : Chat.config) (loaded : list Chat.turn)
    (s : Chat.session) :
  Chat.reachable cfg loaded s ->
  Chat.controlsEnabled (Chat.ui s) = negb (Chat.isLoading (Chat.ui s)).
Proof.
  induction 1 as [|s e s' _ IH Hstep]; [reflexivity|].
  destruct Hstep as [s v | s | s rq rest o Hin]; simpl.
  - exact IH.
  - now apply start_controls.
  - reflexivity.
Qed.

Lemma controls_follow_loading_witness :
  exists s,
    Chat.reachable Chat.CONFIG [] s
    /\ Chat.isLoading (Chat.ui s) = true
    /\ Chat.controlsEnabled (Chat.ui s) = false.
Proof.
  eassert (R : Chat.reachable Chat.CONFIG [] _).
  { eapply Chat.reach_step;
      [eapply Chat.reach_step;
         [apply Chat.reach_init | apply (Chat.step_input _ _ (JS.lit "oi"))]
      | apply Chat.step_submit]. }
  eexists. split; [exact R|]. split; [reflexivity|].
  rewrite (controls_follow_loading _ _ _ R). reflexivity.
Defined.

(** X2. A message that is empty or consists of white space only is not
    sent: [handleFormSubmit] leaves the page as it is, and the session
    has no new request. *)
Theorem blank_message_ignored (cfg : Chat.config) (s s' : Chat.session) :
  Forall (fun c => JS.is_whitespace c = true)
         (Chat.messageInput (Chat.ui s)) ->
  Chat.step cfg s Chat.Submit s' ->
  Chat.handleFormSubmit_start cfg (Chat.ui s) = (Chat.ui s, None)
  /\ s' = s.
Proof.
  intros Hblank Hstep.
  assert (E : Chat.handleFormSubmit_start cfg (Chat.ui s) = (Chat.ui s, None)).
  { unfold Chat.handleFormSubmit_start.
    apply trim_nil_iff in Hblank. now rewrite Hblank. }
  split; [exact E|].
  inversion Hstep; subst. rewrite E. simpl. rewrite app_nil_r.
  now destruct s.
Qed.

Lemma blank_message_ignored_witness :
  let s := {| Chat.ui := Chat.set_input (JS.lit "   ")
                           (Chat.ui (Chat.initial []));
              Chat.in_flight := [] |} in
  Forall (fun c => JS.is_whitespace c = true)
         (Chat.messageInput (Chat.ui s))
  /\ Chat.handleFormSubmit_start Chat.CONFIG (Chat.ui s) = (Chat.ui s, None).
Proof.
  cbv zeta.
  assert (H : Forall (fun c => JS.is_whitespace c = true) (JS.lit "   "))
    by (repeat constructor).
  split; [exact H|].
  exact (proj1 (blank_message_ignored Chat.CONFIG
                  {| Chat.ui := Chat.set_input (JS.lit "   ")
                                  (Chat.ui (Chat.initial []));
                     Chat.in_flight := [] |} _ H
                  (Chat.step_submit _ _))).
Defined.

(** X3. A request that [handleFormSubmit] starts carries the trimmed,
    non-empty input as its message, asks for five sources, and its history
    has at most [HISTORY_LIMIT] entries and ends with that same message as
    a user turn; the input box is emptied and the message is added to the
    transcript as a user message. *)
Theorem started_request_shape (cfg : Chat.config) (st st' : Chat.state)
    (rq : Chat.chat_request) :
  0 < Chat.HISTORY_LIMIT cfg ->
  Chat.handleFormSubmit_start cfg st = (st', Some rq) ->
  Chat.rq_message rq = JS.trim (Chat.messageInput st)
  /\ Chat.rq_message rq <> []
  /\ Chat.rq_k rq = 5
  /\ (length (Chat.rq_history rq) <= Z.to_nat (Chat.HISTORY_LIMIT cfg))%nat
  /\ (exists older,
        Chat.rq_history rq =
        older ++ [ {| Chat.t_role := Chat.user;
                      Chat.t_content := Chat.rq_message rq |} ])
  /\ Chat.messageInput st' = []
  /\ Chat.messages st' =
     Chat.messages st ++
     [ {| Chat.mv_html := Chat.formatMessage (Chat.rq_message rq);
          Chat.mv_isUser := true; Chat.mv_isError := false |} ].
Proof.
  intros Hlim Hstart.
  destruct (start_cases cfg st) as [E | (_ & st1 & m & rq1 & E & Erq & Em & Hm & _ & Hh)].
  - rewrite E in Hstart. discriminate.
  - rewrite E in Hstart. injection Hstart as <- <-.
    subst rq1. simpl.
    split; [exact Em|]. split; [exact Hm|]. split; [reflexivity|].
    rewrite slice_from_neg by exact Hlim.
    split; [rewrite lastn_length; lia|].
    split.
    + rewrite Hh, addToHistory_lastn by exact Hlim.
      unfold JS.lastn. rewrite drop_drop.
      match goal with |- exists _, drop ?n (_ ++ [?t]) = _ =>
        exists (drop n (Chat.history st)) end.
      rewrite drop_app.
      match goal with |- _ ++ drop ?k _ = _ =>
        replace k with 0%nat; [reflexivity|] end.
      rewrite length_drop, !length_app. simpl.
      unfold Chat.window. lia.
    + revert E. unfold Chat.handleFormSubmit_start.
      rewrite <- Em.
      destruct (negb (JS.str_truthy m) || Chat.isLoading st);
        [discriminate|].
      intros E. injection E as <- _. split; reflexivity.
Qed.

Lemma started_request_shape_witness :
  let st := Chat.set_input (JS.lit " oi ") (Chat.ui (Chat.initial [])) in
  exists st' rq,
    Chat.handleFormSubmit_start Chat.CONFIG st = (st', Some rq)
    /\ Chat.rq_message rq = JS.lit "oi"
    /\ Chat.messageInput st' = [].
Proof.
  cbv zeta. eexists _, _.
  eassert (E : Chat.handleFormSubmit_start Chat.CONFIG
                 (Chat.set_input (JS.lit " oi ") (Chat.ui (Chat.initial [])))
               = (_, Some _)) by reflexivity.
  split; [exact E|].
  destruct (started_request_shape Chat.CONFIG _ _ _ eq_refl E)
    as (Hm & _ & _ & _ & _ & Hi & _).
  split; [exact Hm | exact Hi].
Defined.

Section SessionBounds.
Import JS Chat.
Variable cfg : config.
Hypothesis limit_pos : 0 < HISTORY_LIMIT cfg.

Lemma start_history_bound st :
  (length (history st) <= window cfg)%nat ->
  (length (history (fst (handleFormSubmit_start cfg st))) <= window cfg)%nat.
Proof.
  intros H. unfold handleFormSubmit_start.
  destruct (negb (str_truthy (trim (messageInput st))) || isLoading st);
    simpl; [exact H|].
  rewrite addToHistory_lastn, lastn_length by exact limit_pos. lia.
Qed.

Lemma start_request_bound st rq :
  snd (handleFormSubmit_start cfg st) = Some rq ->
  (length (rq_history rq) <= Z.to_nat (HISTORY_LIMIT cfg))%nat.
Proof.
  unfold handleFormSubmit_start.
  destruct (negb (str_truthy (trim (messageInput st))) || isLoading st);
    simpl; [discriminate|].
  intros H. injection H as <-. simpl.
  rewrite slice_from_neg, lastn_length by exact limit_pos. lia.
Qed.

Lemma finish_history_bound st o :
  (length (history st) <= window cfg)%nat ->
  (length (history (handleFormSubmit_finish cfg st o)) <= window cfg)%nat.
Proof.
  intros H. destruct o as [[ans srcs]|msg]; simpl; [|exact H].
  destruct ans as [[|c a]|]; simpl; try exact H.
  rewrite addToHistory_lastn, lastn_length by exact limit_pos. lia.
Qed.
End SessionBounds.

(** X4. When the history read from storage fits the window, the history
    of the page never exceeds [HISTORY_LIMIT * 2] entries in any state the
    session can reach, and no pending request carries more than
    [HISTORY_LIMIT] entries. *)
Theorem session_history_bounded (cfg : Chat.config) (loaded : list Chat.turn)
    (s : Chat.session) :
  0 < Chat.HISTORY_LIMIT cfg ->
  (length loaded <= Chat.window cfg)%nat ->
  Chat.reachable cfg loaded s ->
  (length (Chat.history (Chat.ui s)) <= Chat.window cfg)%nat
  /\ Forall (fun rq => (length (Chat.rq_history rq)
                        <= Z.to_nat (Chat.HISTORY_LIMIT cfg))%nat)
            (Chat.in_flight s).
Proof.
  intros Hlim Hloaded Hreach.
  induction Hreach as [|s e s' _ [IHh IHr] Hstep].
  - split; [exact Hloaded | constructor].
  - destruct Hstep as [s v | s | s rq rest o Hin]; simpl.
    + split; assumption.
    + split; [now apply start_history_bound|].
      apply Forall_app. split; [exact IHr|].
      destruct (snd (Chat.handleFormSubmit_start cfg (Chat.ui s))) as [rq|] eqn:E;
        [|constructor].
      constructor; [|constructor]. now apply (start_request_bound cfg Hlim _ _ E).
    + split; [now apply finish_history_bound|].
      rewrite Hin in IHr. now inversion IHr.
Qed.

Lemma session_history_bounded_witness :
  0 < Chat.HISTORY_LIMIT Chat.CONFIG
  /\ exists s,
       Chat.reachable Chat.CONFIG (Chat.sample_turns 20) s
       /\ Chat.in_flight s <> []
       /\ (length (Chat.history (Chat.ui s)) <= 20)%nat.
Proof.
  split; [reflexivity|].
  eassert (R : Chat.reachable Chat.CONFIG (Chat.sample_turns 20) _).
  { eapply Chat.reach_step;
      [eapply Chat.reach_step;
         [apply Chat.reach_init | apply (Chat.step_input _ _ (JS.lit "oi"))]
      | apply Chat.step_submit]. }
  eexists. split; [exact R|]. split; [vm_compute; discriminate|].
  refine (proj1 (session_history_bounded Chat.CONFIG (Chat.sample_turns 20) _
                   eq_refl _ R)).
  vm_compute. lia.
Defined.



Section FormatFacts.
Import JS Chat ChatPage.

Lemma ordinary_parts c :
  ordinary c = true ->
  plain_char c = true /\ is_delim c = false /\ (code c =? 160)%nat = false.
Proof.
  unfold ordinary. intros H.
  apply andb_true_iff in H. destruct H as [H H3].
  apply andb_true_iff in H. destruct H as [H1 H2].
  apply negb_true_iff in H2, H3. now repeat split.
Qed.

Lemma escapeHtml_ordinary s :
  Forall (fun c => ordinary c = true) s -> escapeHtml s = s.
Proof.
  induction 1 as [|c s Hc _ IH]; [reflexivity|].
  simpl. rewrite IH. apply ordinary_parts in Hc.
  destruct Hc as (Hp & _ & Hn).
  unfold plain_char in Hp. apply negb_true_iff in Hp.
  apply orb_false_iff in Hp. destruct Hp as [Hp Hamp].
  apply orb_false_iff in Hp. destruct Hp as [Hlt Hgt].
  unfold escape_char. now rewrite Hamp, Hn, Hlt, Hgt.
Qed.

(** An expression whose matches start with a delimiter leaves a text
    without delimiters alone. *)
Lemma replace_all_untouched (m : matcher) template s :
  (forall c tl, is_delim c = false -> m (c :: tl) = None) ->
  Forall (fun c => is_delim c = false) s ->
  replace_all m template s = s.
Proof.
  intros Hm Hs. unfold replace_all. generalize (length s) as fuel.
  induction Hs as [|c s Hc _ IH]; intros [|fuel]; simpl; try reflexivity.
  rewrite (Hm _ _ Hc). now rewrite IH.
Qed.

Lemma delim_star c : is_delim c = false -> ascii_eqb c "*" = false.
Proof.
  unfold is_delim. intros H. apply orb_false_iff in H. destruct H as [H _].
  now apply orb_false_iff in H.
Qed.

Lemma delim_backtick c : is_delim c = false -> ascii_eqb c "`" = false.
Proof.
  unfold is_delim. intros H. apply orb_false_iff in H. destruct H as [H _].
  now apply orb_false_iff in H.
Qed.

Lemma delim_newline c : is_delim c = false -> (code c =? 10)%nat = false.
Proof.
  unfold is_delim. intros H. now apply orb_false_iff in H.
Qed.

(** The line break expression leaves no line feed behind. *)
Lemma replace_newline_no_lf s : forall c,
  In c (replace_all match_newline (fun _ => lit "<br>") s) ->
  code c <> 10%nat.
Proof.
  induction s as [|a s IH]; intros c Hin; [destruct Hin|].
  rewrite replace_all_cons in Hin by apply newline_shrinking.
  simpl in Hin. destruct (Nat.eqb_spec (code a) 10) as [Ea|Ea].
  - simpl in Hin.
    destruct Hin as [<-|[<-|[<-|[<-|Hin]]]];
      try (vm_compute; discriminate).
    now apply IH.
  - destruct Hin as [<-|Hin]; [exact Ea | now apply IH].
Qed.

Lemma escape_char_inj a b r1 r2 :
  escape_char a ++ r1 = escape_char b ++ r2 -> a = b /\ r1 = r2.
Proof.
  assert (Hnb : forall c, (code c =? 160)%nat = true -> c = ascii_of_nat 160).
  { intros c Hc. apply Nat.eqb_eq in Hc. unfold code in Hc.
    rewrite <- Hc. symmetry. apply ascii_nat_embedding. }
  unfold escape_char.
  destruct (ascii_eqb a "&") eqn:A1;
    [apply ascii_eqb_true in A1; subst a|];
    [|destruct (code a =? 160)%nat eqn:A2;
       [apply Hnb in A2; subst a|];
       [|destruct (ascii_eqb a "<") eqn:A3;
          [apply ascii_eqb_true in A3; subst a|];
          [|destruct (ascii_eqb a ">") eqn:A4;
             [apply ascii_eqb_true in A4; subst a|]]]];
  (destruct (ascii_eqb b "&") eqn:B1;
    [apply ascii_eqb_true in B1; subst b|];
    [|destruct (code b =? 160)%nat eqn:B2;
       [apply Hnb in B2; subst b|];
       [|destruct (ascii_eqb b "<") eqn:B3;
          [apply ascii_eqb_true in B3; subst b|];
          [|destruct (ascii_eqb b ">") eqn:B4;
             [apply ascii_eqb_true in B4; subst b|]]]]);
  simpl; intros H; try discriminate H;
  try (injection H; intros; subst; try discriminate;
       solve [ now split
             | vm_compute in *; congruence ]).
Qed.
End FormatFacts.

(** X6. A message without HTML special characters, without no-break
    spaces and without the markers of the formatter (star, backtick, line
    feed) is rendered exactly as it was typed. *)
Theorem formatMessage_ordinary_text (content : JS.str) :
  Forall (fun c => ChatPage.ordinary c = true) content ->
  Chat.formatMessage content = content.
Proof.
  intros H.
  assert (Hd : Forall (fun c => Chat.is_delim c = false) content).
  { eapply Forall_impl; [exact H|]. intros c Hc.
    now apply ordinary_parts in Hc. }
  unfold Chat.formatMessage. rewrite (escapeHtml_ordinary _ H).
  rewrite (replace_all_untouched Chat.match_bold) by
    (try exact Hd; intros c [|b tl] Hc; simpl; try reflexivity;
     now rewrite (delim_star _ Hc)).
  rewrite (replace_all_untouched Chat.match_italic) by
    (try exact Hd; intros c tl Hc; simpl; now rewrite (delim_star _ Hc)).
  rewrite (replace_all_untouched Chat.match_code) by
    (try exact Hd; intros c tl Hc; simpl; now rewrite (delim_backtick _ Hc)).
  apply replace_all_untouched; [|exact Hd].
  intros c tl Hc. simpl. now rewrite (delim_newline _ Hc).
Qed.

Lemma formatMessage_ordinary_text_witness :
  Forall (fun c => ChatPage.ordinary c = true) (JS.lit "Qual o prazo?")
  /\ Chat.formatMessage (JS.lit "Qual o prazo?") = JS.lit "Qual o prazo?".
Proof.
  assert (H : Forall (fun c => ChatPage.ordinary c = true)
                (JS.lit "Qual o prazo?")) by (repeat constructor).
  split; [exact H | exact (formatMessage_ordinary_text _ H)].
Defined.

(** X7. A rendered message holds no line feed: every line break of the
    content has become a [<br>] tag. *)
Theorem formatMessage_no_line_feed (content : JS.str) (c : ascii) :
  In c (Chat.formatMessage content) -> JS.code c <> 10%nat.
Proof. unfold Chat.formatMessage. apply replace_newline_no_lf. Qed.

Lemma formatMessage_no_line_feed_witness :
  In "b"%char (Chat.formatMessage [ascii_of_nat 10; "b"%char])
  /\ JS.code "b" <> 10%nat.
Proof.
  assert (H : In "b"%char (Chat.formatMessage [ascii_of_nat 10; "b"%char]))
    by (vm_compute; tauto).
  split; [exact H | exact (formatMessage_no_line_feed _ _ H)].
Defined.

(** X8. [escapeHtml] loses nothing: two texts with the same escaped form
    are the same text. *)
Theorem escapeHtml_injective (s1 s2 : JS.str) :
  Chat.escapeHtml s1 = Chat.escapeHtml s2 -> s1 = s2.
Proof.
  assert (Hne : forall c r, Chat.escape_char c ++ r <> []).
  { intros c r. unfold Chat.escape_char.
    repeat match goal with |- context [if ?b then _ else _] => destruct b end;
      discriminate. }
  revert s2. induction s1 as [|a s1 IH]; intros [|b s2] H; simpl in H.
  - reflexivity.
  - symmetry in H. now apply Hne in H.
  - now apply Hne in H.
  - apply escape_char_inj in H. destruct H as [-> H].
    f_equal. now apply IH.
Qed.

Lemma escapeHtml_injective_witness :
  Chat.escapeHtml (JS.lit "a<b") = Chat.escapeHtml (JS.lit "a<b")
  /\ Chat.escapeHtml (JS.lit "a<b") <> Chat.escapeHtml (JS.lit "a&lt;b").
Proof.
  split; [reflexivity|].
  intros H. apply escapeHtml_injective in H. discriminate H.
Defined.


(** X10. With a limit of zero nothing is bounded: [slice(-0)] is the whole
    array, so [addToHistory] never evicts and a request carries the whole
    history. *)
Theorem zero_limit_keeps_everything (cfg : Chat.config)
    (h ts : list Chat.turn) (message : JS.str) :
  Chat.HISTORY_LIMIT cfg = 0 ->
  Chat.appendAll cfg h ts = h ++ ts
  /\ Chat.rq_history (Chat.sendMessageToAPI_body cfg message h) = h.
Proof.
  intros H0.
  assert (Hadd : forall h r c,
            Chat.addToHistory cfg h r c
            = h ++ [ {| Chat.t_role := r; Chat.t_content := c |} ]).
  { intros h' r c. unfold Chat.addToHistory. rewrite H0.
    change (- 0 * 2) with (- 0). rewrite slice_from_zero.
    now destruct (_ <? _). }
  split.
  - revert h. induction ts as [|[r c] ts IH]; intros h; simpl.
    + now rewrite app_nil_r.
    + rewrite IH, Hadd, <- app_assoc. reflexivity.
  - simpl. rewrite H0. apply slice_from_zero.
Qed.

Lemma zero_limit_keeps_everything_witness :
  let cfg := {| Chat.MAX_MESSAGE_LENGTH := 500; Chat.HISTORY_LIMIT := 0 |} in
  Chat.HISTORY_LIMIT cfg = 0
  /\ Chat.appendAll cfg [] (Chat.sample_turns 30) = Chat.sample_turns 30.
Proof.
  cbv zeta. split; [reflexivity|].
  exact (proj1 (zero_limit_keeps_everything
                  {| Chat.MAX_MESSAGE_LENGTH := 500; Chat.HISTORY_LIMIT := 0 |}
                  [] (Chat.sample_turns 30) [] eq_refl)).
Defined.

(* ===================================================================== *)
(** ** Further properties: the appeal-analysis form                      *)
(* ===================================================================== *)

Section AnalysisFacts.
Import JS AppealAnalysis.

Lemma validateForm_text fd :
  validateForm_errors fd !! "text"%string =
  if negb (str_truthy (trim (text fd)))
  then Some (Some (lit "O texto do recurso é obrigatório"))
  else if (length (text fd) <? 10)%nat
  then Some (Some (lit "O texto deve ter pelo menos 10 caracteres"))
  else if (5000 <? length (text fd))%nat
  then Some (Some (lit "O texto deve ter no máximo 5000 caracteres"))
  else None.
Proof.
  unfold validateForm_errors.
  repeat match goal with |- context [if ?b then _ else _] =>
    destruct b end;
  by simplify_map_eq.
Qed.

(** [validateForm] returns true exactly when none of its tests fires. *)
Lemma validateForm_ok_iff fd :
  snd (validateForm fd) = true <->
  (negb (str_truthy (trim (text fd))) = false
   /\ (length (text fd) <? 10)%nat = false
   /\ (5000 <? length (text fd))%nat = false
   /\ lt (top_k fd) (Fin 1) || gt (top_k fd) (Fin 50) = false
   /\ lt (min_score fd) (Fin 0) || gt (min_score fd) (Fin 1) = false).
Proof.
  unfold validateForm. cbn [snd]. rewrite Nat.eqb_eq. split.
  - intros Hsize. apply map_size_empty_iff in Hsize.
    pose proof (validateForm_text fd) as Ht.
    pose proof (validateForm_top_k fd) as Hk.
    pose proof (validateForm_min_score fd) as Hs.
    rewrite Hsize, lookup_empty in Ht, Hk, Hs.
    destruct (negb (str_truthy (trim (text fd)))); [discriminate|].
    destruct (length (text fd) <? 10)%nat; [discriminate|].
    destruct (5000 <? length (text fd))%nat; [discriminate|].
    destruct (lt (top_k fd) (Fin 1) || gt (top_k fd) (Fin 50));
      [discriminate|].
    destruct (lt (min_score fd) (Fin 0) || gt (min_score fd) (Fin 1));
      [discriminate|].
    repeat split.
  - intros (H1 & H2 & H3 & H4 & H5).
    unfold validateForm_errors. rewrite H1, H2, H3, H4, H5.
    apply map_size_empty.
Qed.

Lemma range_test_iff lo hi n :
  n <> NaN ->
  (lt n (Fin lo) || gt n (Fin hi) = false <-> in_range lo hi n).
Proof.
  intros Hn. split.
  - intros Htest. destruct n as [| | |q]; simpl in *; try congruence.
    unfold gt in Htest. simpl in Htest.
    apply orb_false_iff in Htest. destruct Htest as [H1 H2].
    split.
    + destruct (Qlt_le_dec q lo) as [Hlt|Hle]; [|exact Hle].
      apply Qlt_bool_iff in Hlt. congruence.
    + destruct (Qlt_le_dec hi q) as [Hlt|Hle]; [|exact Hle].
      apply Qlt_bool_iff in Hlt. congruence.
  - apply in_range_accepted.
Qed.

Lemma or_default_truthy a d : truthy d = true -> truthy (or_default a d) = true.
Proof.
  intros Hd. unfold or_default. destruct (truthy a) eqn:E; assumption.
Qed.
End AnalysisFacts.

(** X11. For the form data that the inputs can produce, [handleSubmit]
    issues a request exactly when the text is not blank and has 10 to 5000
    characters, [top_k] lies within 1..50 and [min_score] within 0..1.
    The request then carries the form data as they are, with the draft
    variant chosen by the checkbox; loading is switched on, the previous
    results are cleared and no error is left. *)
Theorem handleSubmit_issues_iff_valid (to_number : Q -> JS.number)
    (st : AppealAnalysis.state) :
  AppealAnalysis.form_reachable to_number (AppealAnalysis.form st) ->
  let fd := AppealAnalysis.form st in
  let valid :=
    JS.trim (AppealAnalysis.text fd) <> []
    /\ (10 <= length (AppealAnalysis.text fd) <= 5000)%nat
    /\ in_range 1 50 (AppealAnalysis.top_k fd)
    /\ in_range 0 1 (AppealAnalysis.min_score fd) in
  (snd (AppealAnalysis.handleSubmit_start st) <> None <-> valid)
  /\ (valid ->
      AppealAnalysis.handleSubmit_start st =
      ({| AppealAnalysis.form := fd; AppealAnalysis.results := None;
          AppealAnalysis.loading := true;
          AppealAnalysis.includeDraft := AppealAnalysis.includeDraft st;
          AppealAnalysis.errors := ∅;
          AppealAnalysis.expandedResponses :=
            AppealAnalysis.expandedResponses st |},
       [],
       Some (if AppealAnalysis.includeDraft st
             then AppealAnalysis.AnalyzeAppealWithDraft fd
             else AppealAnalysis.AnalyzeAppeal fd))).
Proof.
  intros Hreach. cbv zeta.
  destruct (form_reachable_not_NaN _ _ Hreach) as [Hk Hs].
  pose proof (validateForm_ok_iff (AppealAnalysis.form st)) as Hok.
  rewrite (range_test_iff 1 50 _ Hk), (range_test_iff 0 1 _ Hs) in Hok.
  assert (Hvalid :
    snd (AppealAnalysis.validateForm (AppealAnalysis.form st)) = true <->
    JS.trim (AppealAnalysis.text (AppealAnalysis.form st)) <> []
    /\ (10 <= length (AppealAnalysis.text (AppealAnalysis.form st)) <= 5000)%nat
    /\ in_range 1 50 (AppealAnalysis.top_k (AppealAnalysis.form st))
    /\ in_range 0 1 (AppealAnalysis.min_score (AppealAnalysis.form st))).
  { rewrite Hok. rewrite negb_false_iff, !Nat.ltb_ge.
    assert (Ht : JS.str_truthy
                   (JS.trim (AppealAnalysis.text (AppealAnalysis.form st)))
                 = true <->
                 JS.trim (AppealAnalysis.text (AppealAnalysis.form st)) <> []).
    { destruct (JS.trim _); simpl; split; congruence. }
    rewrite Ht. tauto. }
  split.
  - rewrite <- Hvalid. unfold AppealAnalysis.handleSubmit_start.
    destruct (AppealAnalysis.validateForm (AppealAnalysis.form st))
      as [newErrors ok]. simpl.
    destruct ok; simpl; split; congruence.
  - intros Hv. apply Hvalid in Hv.
    unfold AppealAnalysis.handleSubmit_start.
    assert (Hempty : AppealAnalysis.validateForm_errors (AppealAnalysis.form st)
                     = ∅).
    { unfold AppealAnalysis.validateForm in Hv. simpl in Hv.
      apply Nat.eqb_eq in Hv. now apply map_size_empty_iff in Hv. }
    unfold AppealAnalysis.validateForm in *. simpl in Hv.
    rewrite Hv, Hempty. reflexivity.
Qed.

Lemma handleSubmit_issues_iff_valid_witness :
  let st := AppealAnalysis.handleInputChange JS.Fin "text"
              (JS.lit "Solicito acesso aos autos do processo.")
              AppealAnalysis.initial_state in
  AppealAnalysis.form_reachable JS.Fin (AppealAnalysis.form st)
  /\ snd (AppealAnalysis.handleSubmit_start st) <> None.
Proof.
  cbv zeta.
  assert (R : AppealAnalysis.form_reachable JS.Fin
                (AppealAnalysis.form
                   (AppealAnalysis.handleInputChange JS.Fin "text"
                      (JS.lit "Solicito acesso aos autos do processo.")
                      AppealAnalysis.initial_state)))
    by apply AppealAnalysis.fr_change, AppealAnalysis.fr_init.
  split; [exact R|].
  apply (proj1 (handleSubmit_issues_iff_valid JS.Fin _ R)).
  split; [vm_compute; discriminate|].
  split; [vm_compute; lia|].
  split; split; apply Qle_bool_iff; reflexivity.
Defined.

(** X12. Whatever is typed into a quantity field, the stored [top_k] is
    never zero and never NaN, in the analysis form and in both lookup
    forms; the stored [min_score] is never NaN. *)
Theorem edited_numbers_are_usable (to_number : Q -> JS.number)
    (value : JS.str) (st : AppealAnalysis.state)
    (pst : ProtocolSearch.state) (ast : AppealSearch.state) :
  JS.truthy (AppealAnalysis.top_k (AppealAnalysis.form
     (AppealAnalysis.handleInputChange to_number "top_k" value st))) = true
  /\ JS.truthy (ProtocolSearch.topK
       (ProtocolSearch.onTopKChange to_number value pst)) = true
  /\ JS.truthy (AppealSearch.topK
       (AppealSearch.onTopKChange to_number value ast)) = true
  /\ AppealAnalysis.min_score (AppealAnalysis.form
       (AppealAnalysis.handleInputChange to_number "min_score" value st))
     <> JS.NaN.
Proof.
  repeat split; try (apply or_default_truthy; reflexivity).
  apply or_default_not_NaN. discriminate.
Qed.

(** X13. Editing one field of the analysis form changes neither the other
    fields nor the errors recorded for them, and leaves no error on the
    edited field; the text and the instance filter are stored as typed. *)
Theorem handleInputChange_frame (to_number : Q -> JS.number)
    (name other : string) (value : JS.str) (st : AppealAnalysis.state) :
  name <> other ->
  let st' := AppealAnalysis.handleInputChange to_number name value st in
  AppealAnalysis.errors st' !! other = AppealAnalysis.errors st !! other
  /\ (name <> "text"%string ->
      AppealAnalysis.text (AppealAnalysis.form st')
      = AppealAnalysis.text (AppealAnalysis.form st))
  /\ (name <> "top_k"%string ->
      AppealAnalysis.top_k (AppealAnalysis.form st')
      = AppealAnalysis.top_k (AppealAnalysis.form st))
  /\ (name <> "min_score"%string ->
      AppealAnalysis.min_score (AppealAnalysis.form st')
      = AppealAnalysis.min_score (AppealAnalysis.form st))
  /\ (name <> "instance_filter"%string ->
      AppealAnalysis.instance_filter (AppealAnalysis.form st')
      = AppealAnalysis.instance_filter (AppealAnalysis.form st))
  /\ (name = "text"%string ->
      AppealAnalysis.text (AppealAnalysis.form st') = value)
  /\ (name = "instance_filter"%string ->
      AppealAnalysis.instance_filter (AppealAnalysis.form st') = value)
  /\ AppealAnalysis.results st' = AppealAnalysis.results st
  /\ AppealAnalysis.loading st' = AppealAnalysis.loading st
  /\ AppealAnalysis.has_error (AppealAnalysis.errors st') name = false.
Proof.
  intros Hne. cbv zeta. simpl.
  split.
  { destruct (AppealAnalysis.has_error (AppealAnalysis.errors st) name);
      [now rewrite lookup_insert_ne | reflexivity]. }
  assert (Hcleared :
    AppealAnalysis.has_error
      (if AppealAnalysis.has_error (AppealAnalysis.errors st) name
       then <[name := None]> (AppealAnalysis.errors st)
       else AppealAnalysis.errors st) name = false).
  { destruct (AppealAnalysis.has_error (AppealAnalysis.errors st) name) eqn:E;
      [|exact E].
    unfold AppealAnalysis.has_error. now rewrite lookup_insert_eq. }
  unfold AppealAnalysis.update_field.
  repeat split; try exact Hcleared; try intros Hn;
    repeat match goal with
    | |- context [String.eqb name ?k] =>
        destruct (String.eqb_spec name k); simpl; try congruence
    end.
Qed.

Lemma handleInputChange_frame_witness :
  let st' := AppealAnalysis.handleInputChange JS.Fin "top_k" (JS.lit "7")
               AppealAnalysis.initial_state in
  "top_k"%string <> "text"%string
  /\ AppealAnalysis.text (AppealAnalysis.form st') = [].
Proof.
  cbv zeta. split; [discriminate|].
  destruct (handleInputChange_frame JS.Fin "top_k" "text" (JS.lit "7")
              AppealAnalysis.initial_state) as (_ & Ht & _);
    [discriminate|].
  apply Ht. discriminate.
Defined.

Lemma toggle_lookup (m : gmap JS.str bool) (appealId other : JS.str) :
  toggleResponseExpansion appealId m !! other =
  if decide (appealId = other)
  then Some (negb (default false (m !! appealId)))
  else m !! other.
Proof. unfold toggleResponseExpansion. apply lookup_insert. Qed.

(** Toggling the expansion of a response twice brings it back to the
    state it had, and toggling one response never touches another. *)
Lemma toggleResponseExpansion_involutive (m : gmap JS.str bool)
    (appealId other : JS.str) :
  default false (toggleResponseExpansion appealId m !! appealId)
  = negb (default false (m !! appealId))
  /\ default false
       (toggleResponseExpansion appealId
          (toggleResponseExpansion appealId m) !! appealId)
     = default false (m !! appealId)
  /\ (appealId <> other ->
      toggleResponseExpansion appealId m !! other = m !! other).
Proof.
  rewrite !toggle_lookup. split; [|split].
  - now case_decide.
  - repeat (case_decide; [|congruence]). simpl. apply negb_involutive.
  - intros Hne. now case_decide.
Qed.

(** X14. A response longer than the bound is shown whole after one click
    on its toggle and cut again after a second click; the click on the
    toggle of another response changes nothing. *)
Theorem toggle_then_render (m : gmap JS.str bool)
    (text appealId other : JS.str) (maxLength : nat) :
  (maxLength < length text)%nat ->
  default false (m !! appealId) = false ->
  appealId <> other ->
  renderExpandableText_body m text appealId maxLength
    = WithToggle (take maxLength text ++ JS.lit "...") (JS.lit "Ver mais")
  /\ renderExpandableText_body (toggleResponseExpansion appealId m)
       text appealId maxLength
     = WithToggle text (JS.lit "Ver menos")
  /\ renderExpandableText_body
       (toggleResponseExpansion appealId (toggleResponseExpansion appealId m))
       text appealId maxLength
     = renderExpandableText_body m text appealId maxLength
  /\ renderExpandableText_body (toggleResponseExpansion other m)
       text appealId maxLength
     = renderExpandableText_body m text appealId maxLength.
Proof.
  intros Hlong Hcollapsed Hne.
  unfold renderExpandableText_body.
  rewrite !toggle_lookup.
  repeat (case_decide; try congruence). simpl.
  rewrite Hcollapsed.
  apply Nat.ltb_lt in Hlong. rewrite Hlong. simpl.
  repeat split.
Qed.

Lemma toggle_then_render_witness :
  (4 < length (JS.lit "abcdef"))%nat
  /\ renderExpandableText_body
       (toggleResponseExpansion (JS.lit "response-1") ∅)
       (JS.lit "abcdef") (JS.lit "response-1") 4
     = WithToggle (JS.lit "abcdef") (JS.lit "Ver menos").
Proof.
  split; [simpl; lia|].
  refine (proj1 (proj2 (toggle_then_render ∅ (JS.lit "abcdef")
                          (JS.lit "response-1") (JS.lit "response-2") 4
                          _ eq_refl _))).
  - simpl. lia.
  - discriminate.
Defined.

Lemma str_eqb_eq (a b : JS.str) : Core.str_eqb a b = true <-> a = b.
Proof.
  revert b. induction a as [|x a IH]; intros [|y b]; simpl;
    try (split; [discriminate | congruence]); [tauto|].
  rewrite andb_true_iff, IH. unfold JS.ascii_eqb. rewrite Ascii.eqb_eq.
  split; [intros [-> ->]; reflexivity | intros H; injection H; auto].
Qed.

(** X15. Until it is expanded, what is shown of a response never exceeds
    the bound by more than the three characters of the marker.  The
    details of a request are shown only when they are not empty and differ
    from the summary: whole up to 500 characters, otherwise as the first
    500 characters followed by the marker. *)
Theorem excerpt_length_bounded (m : gmap JS.str bool)
    (text appealId : JS.str) (maxLength : nat)
    (details summary : option JS.str) :
  (default false (m !! appealId) = false ->
   (length (shown_text (renderExpandableText_body m text appealId maxLength))
    <= maxLength + 3)%nat)
  /\ (forall shown,
        ProtocolPage.detailsBlock details summary = Some shown ->
        (length shown <= 503)%nat
        /\ details <> summary
        /\ exists d,
             details = Some d /\ d <> []
             /\ ((length d <= 500)%nat -> shown = d)
             /\ ((500 < length d)%nat -> shown = take 500 d ++ JS.lit "..."))
  /\ (details = summary -> ProtocolPage.detailsBlock details summary = None).
Proof.
  split; [|split].
  - intros Hc. unfold renderExpandableText_body, JS.substring0. rewrite Hc.
    destruct (Nat.ltb_spec maxLength (length text)); simpl.
    + rewrite length_app, length_take.
      change (length ["."%char; "."%char; "."%char]) with 3%nat. lia.
    + lia.
  - intros shown. unfold ProtocolPage.detailsBlock, JS.substring0.
    destruct details as [[|c d]|]; try discriminate.
    assert (Hcut :
      (length (if (500 <? length (c :: d))%nat
               then take 500 (c :: d) ++ JS.lit "..." else c :: d) <= 503)%nat
      /\ ((length (c :: d) <= 500)%nat ->
          (if (500 <? length (c :: d))%nat
           then take 500 (c :: d) ++ JS.lit "..." else c :: d) = c :: d)
      /\ ((500 < length (c :: d))%nat ->
          (if (500 <? length (c :: d))%nat
           then take 500 (c :: d) ++ JS.lit "..." else c :: d)
          = take 500 (c :: d) ++ JS.lit "...")).
    { destruct (Nat.ltb_spec 500 (length (c :: d))).
      - split; [rewrite length_app, length_take;
                change (length (JS.lit "...")) with 3%nat; lia|].
        split; [lia | reflexivity].
      - split; [lia|]. split; [reflexivity | lia]. }
    destruct Hcut as (Hl & Hshort & Hlong).
    destruct summary as [s|].
    + destruct (Core.str_eqb (c :: d) s) eqn:E; simpl; [discriminate|].
      intros H. injection H as <-.
      split; [exact Hl|]. split.
      * intros H. injection H as H. apply str_eqb_eq in H. congruence.
      * exists (c :: d). split; [reflexivity|]. split; [discriminate|].
        split; assumption.
    + simpl. intros H. injection H as <-.
      split; [exact Hl|]. split; [discriminate|].
      exists (c :: d). split; [reflexivity|]. split; [discriminate|].
      split; assumption.
  - intros ->. unfold ProtocolPage.detailsBlock.
    destruct summary as [[|c d]|]; try reflexivity.
    now rewrite (proj2 (str_eqb_eq (c :: d) (c :: d)) eq_refl).
Qed.

Section IncludesFacts.
Import JS.

Lemma startsWith_app p s : startsWith p (p ++ s) = true.
Proof.
  induction p as [|c p IH]; simpl; [reflexivity|].
  unfold ascii_eqb. now rewrite Ascii.eqb_refl.
Qed.

Lemma includes_here s needle :
  startsWith needle s = true -> includes s needle = true.
Proof. intros H. destruct s; simpl in *; now rewrite H. Qed.

(** A string includes each of its substrings. *)
Lemma includes_app pre needle post :
  includes (pre ++ needle ++ post) needle = true.
Proof.
  induction pre as [|c pre IH]; simpl.
  - apply includes_here, startsWith_app.
  - rewrite IH. apply orb_true_r.
Qed.
End IncludesFacts.

(** X16. On the analysis page a decision whose text contains [Deferido]
    gets the success badge whatever else it says, so the warning badge is
    left to texts with [Provavelmente] that contain neither [Deferido] nor
    [Indeferido]; on the lookup pages the badge goes by the exact label,
    and [Parcialmente Deferido] is a warning there. *)
Theorem decision_badge_by_substring (pre post decision : JS.str) :
  AnalysisPage.getDecisionBadgeVariant (pre ++ JS.lit "Deferido" ++ post)
  = Success
  /\ (AnalysisPage.getDecisionBadgeVariant decision = Warning ->
      JS.includes decision (JS.lit "Provavelmente") = true
      /\ JS.includes decision (JS.lit "Deferido") = false
      /\ JS.includes decision (JS.lit "Indeferido") = false)
  /\ AnalysisPage.getDecisionBadgeVariant (JS.lit "Parcialmente Deferido")
     = Success
  /\ ProtocolPage.getDecisionBadgeVariant (JS.lit "Parcialmente Deferido")
     = Warning
  /\ (ProtocolPage.getDecisionBadgeVariant decision = Success ->
      decision = JS.lit "Deferido").
Proof.
  split; [|split; [|split; [|split]]].
  - unfold AnalysisPage.getDecisionBadgeVariant. now rewrite includes_app.
  - unfold AnalysisPage.getDecisionBadgeVariant.
    destruct (JS.includes decision (JS.lit "Deferido")); [discriminate|].
    destruct (JS.includes decision (JS.lit "Indeferido")); [discriminate|].
    destruct (JS.includes decision (JS.lit "Provavelmente"));
      [now repeat split | discriminate].
  - reflexivity.
  - reflexivity.
  - unfold ProtocolPage.getDecisionBadgeVariant.
    destruct (Core.str_eqb decision (JS.lit "Deferido")) eqn:E.
    + intros _. now apply str_eqb_eq.
    + repeat match goal with |- context [if ?b then _ else _] =>
        destruct b end; discriminate.
Qed.

(** X17. Once [handleSubmit] has issued its request, loading is off again
    however the call ends and the form data are untouched.  A result is
    stored and announced; after any failure the previous results stay
    cleared and exactly one error toast is shown; the draft option is
    switched off by status 501 and by nothing else. *)
Theorem handleSubmit_settles (api : AppealAnalysis.api_call -> AnalysisPage.outcome)
    (st st' : AppealAnalysis.state) (toasts : list toast)
    (call : AppealAnalysis.api_call) :
  AnalysisPage.handleSubmit api st = (st', toasts, Some call) ->
  AppealAnalysis.loading st' = false
  /\ AppealAnalysis.form st' = AppealAnalysis.form st
  /\ call = (if AppealAnalysis.includeDraft st
             then AppealAnalysis.AnalyzeAppealWithDraft (AppealAnalysis.form st)
             else AppealAnalysis.AnalyzeAppeal (AppealAnalysis.form st))
  /\ match api call with
     | AnalysisPage.Resolved result =>
         AppealAnalysis.results st' = Some result
         /\ AppealAnalysis.includeDraft st' = AppealAnalysis.includeDraft st
         /\ exists msg, toasts = [ToastSuccess msg]
     | AnalysisPage.Rejected status detail =>
         AppealAnalysis.results st' = None
         /\ (exists msg, toasts = [ToastError msg])
         /\ AppealAnalysis.includeDraft st' =
            (if decide (status = Some 501) then false
             else AppealAnalysis.includeDraft st)
     end.
Proof.
  unfold AnalysisPage.handleSubmit, AppealAnalysis.handleSubmit_start.
  destruct (AppealAnalysis.validateForm (AppealAnalysis.form st))
    as [newErrors ok].
  destruct ok; simpl; [|discriminate].
  match goal with |- context [api ?c] => set (c0 := c) end.
  destruct (api c0) as [result|status detail] eqn:E.
  - intros H. injection H as <- <- <-. rewrite E. simpl.
    repeat split. eauto.
  - assert (Hgen : forall msg draft,
      draft = (if decide (status = Some 501) then false
               else AppealAnalysis.includeDraft st) ->
      (AnalysisPage.finish
         {| AppealAnalysis.form := AppealAnalysis.form st;
            AppealAnalysis.results := None; AppealAnalysis.loading := true;
            AppealAnalysis.includeDraft := AppealAnalysis.includeDraft st;
            AppealAnalysis.errors := newErrors;
            AppealAnalysis.expandedResponses :=
              AppealAnalysis.expandedResponses st |} None draft,
       [ToastError msg], Some c0) = (st', toasts, Some call) ->
      AppealAnalysis.loading st' = false
      /\ AppealAnalysis.form st' = AppealAnalysis.form st
      /\ call = c0
      /\ match api call with
         | AnalysisPage.Resolved result =>
             AppealAnalysis.results st' = Some result
             /\ AppealAnalysis.includeDraft st' = AppealAnalysis.includeDraft st
             /\ exists msg, toasts = [ToastSuccess msg]
         | AnalysisPage.Rejected status detail =>
             AppealAnalysis.results st' = None
             /\ (exists msg, toasts = [ToastError msg])
             /\ AppealAnalysis.includeDraft st' =
                (if decide (status = Some 501) then false
                 else AppealAnalysis.includeDraft st)
         end).
    { intros msg draft Hd H. injection H as <- <- <-. rewrite E. simpl.
      repeat split; eauto. }
    destruct status as [z|].
    + destruct (decide (z = 404)) as [->|H404].
      * apply Hgen. now case_decide.
      * destruct (decide (z = 501)) as [->|H501].
        -- apply Hgen. now case_decide.
        -- assert (Hd : AppealAnalysis.includeDraft st =
                     (if decide (Some z = Some 501) then false
                      else AppealAnalysis.includeDraft st))
             by (case_decide; congruence).
           destruct z as [|p|p]; try (apply Hgen; exact Hd).
           repeat (destruct p as [p|p|]; try (apply Hgen; exact Hd);
                   try congruence).
    + apply Hgen. now case_decide.
Qed.

Lemma handleSubmit_settles_witness :
  let st := {| AppealAnalysis.form :=
                 {| AppealAnalysis.text :=
                      JS.lit "Solicito acesso aos autos do processo.";
                    AppealAnalysis.top_k := JS.Fin 10;
                    AppealAnalysis.instance_filter := [];
                    AppealAnalysis.min_score := JS.Fin 0 |};
               AppealAnalysis.results := None;
               AppealAnalysis.loading := false;
               AppealAnalysis.includeDraft := true;
               AppealAnalysis.errors := ∅;
               AppealAnalysis.expandedResponses := ∅ |} in
  let api := fun _ : AppealAnalysis.api_call =>
               AnalysisPage.Rejected (Some 501) None in
  exists st' toasts call,
    AnalysisPage.handleSubmit api st = (st', toasts, Some call)
    /\ AppealAnalysis.loading st' = false
    /\ AppealAnalysis.includeDraft st' = false.
Proof.
  cbv zeta. eexists _, _, _.
  match goal with |- ?E /\ _ => assert (H : E) by reflexivity end.
  split; [exact H|].
  destruct (handleSubmit_settles _ _ _ _ _ H) as (Hl & _ & _ & _ & _ & Hd).
  split; [exact Hl | exact Hd].
Defined.

(* ===================================================================== *)
(** ** Further properties: the lookup pages                              *)
(* ===================================================================== *)

Section LookupFacts.
Import JS ProtocolSearch.

(** The ways [handleSearch] can end once the protocol is not blank. *)
Lemma handleSearch_cases api st :
  str_truthy (trim (protocolId st)) = true ->
  exists res orig err toastmsg,
    handleSearch api st =
      ({| protocolId := protocolId st; topK := topK st; results := res;
          originalRequest := orig; loading := false; error := err |},
       [toastmsg],
       [FindSimilarRequests (trim (protocolId st)) (topK st)])
    /\ ((err = [] /\
         api (trim (protocolId st)) (topK st)
         = Ok (Some {| original_request := orig;
                       similar_requests := Some res |})
         /\ toastmsg =
            match res with
            | [] => ToastInfo
                      (lit "Nenhum pedido similar encontrado para este protocolo")
            | _ => ToastSuccess (count_message (length res))
            end)
        \/ (err <> [] /\ res = [] /\ orig = None
            /\ (forall d, api (trim (protocolId st)) (topK st) <> Ok (Some
                  {| original_request := d.1; similar_requests := Some d.2 |}))
            /\ exists msg, toastmsg = ToastError msg)).
Proof.
  intros Hne. unfold handleSearch. rewrite Hne. simpl negb. cbv iota.
  destruct (api (trim (protocolId st)) (topK st))
    as [[[orig [sims|]]|]|status detail|] eqn:E.
  - eexists _, _, _, _. split; [reflexivity|]. left. repeat split.
  - eexists _, _, _, _. split; [reflexivity|]. right.
    split; [discriminate|]. repeat split; [discriminate | eauto].
  - eexists _, _, _, _. split; [reflexivity|]. right.
    split; [discriminate|]. repeat split; [discriminate | eauto].
  - destruct (status =? 404); eexists _, _, _, _;
      (split; [reflexivity|]); right;
      (split; [discriminate|]); repeat split;
      try discriminate; eauto.
  - eexists _, _, _, _. split; [reflexivity|]. right.
    split; [discriminate|]. repeat split; [discriminate | eauto].
Qed.
End LookupFacts.

(** X18. A search for a protocol that is not blank makes exactly one call,
    with the trimmed protocol and the chosen quantity, shows exactly one
    toast and ends with loading off.  Either the reply was well formed,
    and then the page holds its original request and its similar requests
    and no error; or the page holds an error, no original request and an
    empty list, and the toast is an error toast. *)
Theorem protocol_search_outcome
    (api : JS.str -> JS.number -> ProtocolSearch.api_outcome)
    (st : ProtocolSearch.state) :
  JS.str_truthy (JS.trim (ProtocolSearch.protocolId st)) = true ->
  exists st' note,
    ProtocolSearch.handleSearch api st =
      (st', [note],
       [ProtocolSearch.FindSimilarRequests
          (JS.trim (ProtocolSearch.protocolId st)) (ProtocolSearch.topK st)])
    /\ ProtocolSearch.loading st' = false
    /\ ProtocolSearch.protocolId st' = ProtocolSearch.protocolId st
    /\ ProtocolSearch.topK st' = ProtocolSearch.topK st
    /\ ((ProtocolSearch.error st' = []
         /\ api (JS.trim (ProtocolSearch.protocolId st)) (ProtocolSearch.topK st)
            = ProtocolSearch.Ok (Some
                {| ProtocolSearch.original_request :=
                     ProtocolSearch.originalRequest st';
                   ProtocolSearch.similar_requests :=
                     Some (ProtocolSearch.results st') |})
         /\ ((ProtocolSearch.results st' = [] /\ exists msg, note = ToastInfo msg)
             \/ (ProtocolSearch.results st' <> []
                 /\ exists msg, note = ToastSuccess msg)))
        \/ (ProtocolSearch.error st' <> []
            /\ ProtocolSearch.results st' = []
            /\ ProtocolSearch.originalRequest st' = None
            /\ exists msg, note = ToastError msg)).
Proof.
  intros Hne.
  destruct (handleSearch_cases api st Hne)
    as (res & orig & err & note & E & [(-> & Hapi & ->)|(Herr & -> & -> & _ & Hmsg)]).
  - eexists _, _. split; [exact E|]. simpl. repeat split. left.
    split; [reflexivity|]. split; [exact Hapi|].
    destruct res; [left | right]; split; eauto; discriminate.
  - eexists _, _. split; [exact E|]. simpl. repeat split. right.
    now repeat split.
Qed.

Lemma protocol_search_outcome_witness :
  let st := {| ProtocolSearch.protocolId := JS.lit " 23546026306202248";
               ProtocolSearch.topK := JS.Fin 5;
               ProtocolSearch.results := [];
               ProtocolSearch.originalRequest := None;
               ProtocolSearch.loading := false;
               ProtocolSearch.error := [] |} in
  JS.str_truthy (JS.trim (ProtocolSearch.protocolId st)) = true
  /\ exists st' note,
       ProtocolSearch.handleSearch (fun _ _ => ProtocolSearch.NoResponse) st
       = (st', [note],
          [ProtocolSearch.FindSimilarRequests (JS.lit "23546026306202248")
             (JS.Fin 5)])
       /\ ProtocolSearch.loading st' = false.
Proof.
  cbv zeta. split; [reflexivity|].
  edestruct (protocol_search_outcome (fun _ _ => ProtocolSearch.NoResponse))
    as (st' & note & E & Hl & _); [|exists st', note; split; [exact E | exact Hl]].
  reflexivity.
Defined.

(** X19. A blank protocol is refused without any call or toast: only the
    error text changes, so results of an earlier search stay on the
    page. *)
Theorem blank_protocol_refused
    (api : JS.str -> JS.number -> ProtocolSearch.api_outcome)
    (st : ProtocolSearch.state) :
  Forall (fun c => JS.is_whitespace c = true) (ProtocolSearch.protocolId st) ->
  ProtocolSearch.handleSearch api st =
    ({| ProtocolSearch.protocolId := ProtocolSearch.protocolId st;
        ProtocolSearch.topK := ProtocolSearch.topK st;
        ProtocolSearch.results := ProtocolSearch.results st;
        ProtocolSearch.originalRequest := ProtocolSearch.originalRequest st;
        ProtocolSearch.loading := ProtocolSearch.loading st;
        ProtocolSearch.error :=
          JS.lit "Por favor, informe um número de protocolo" |},
     [], []).
Proof.
  intros Hblank. apply trim_nil_iff in Hblank.
  unfold ProtocolSearch.handleSearch. now rewrite Hblank.
Qed.

Lemma blank_protocol_refused_witness :
  Forall (fun c => JS.is_whitespace c = true) (JS.lit "  ")
  /\ snd (ProtocolSearch.handleSearch (fun _ _ => ProtocolSearch.NoResponse)
            {| ProtocolSearch.protocolId := JS.lit "  ";
               ProtocolSearch.topK := JS.Fin 5;
               ProtocolSearch.results := [];
               ProtocolSearch.originalRequest := None;
               ProtocolSearch.loading := false;
               ProtocolSearch.error := [] |}) = [].
Proof.
  assert (H : Forall (fun c => JS.is_whitespace c = true) (JS.lit "  "))
    by (repeat constructor).
  split; [exact H|].
  rewrite (blank_protocol_refused (fun _ _ => ProtocolSearch.NoResponse)
             {| ProtocolSearch.protocolId := JS.lit "  ";
                ProtocolSearch.topK := JS.Fin 5;
                ProtocolSearch.results := [];
                ProtocolSearch.originalRequest := None;
                ProtocolSearch.loading := false;
                ProtocolSearch.error := [] |} H).
  reflexivity.
Defined.

(** X20. After a search for a protocol that is not blank, exactly one of
    the three cards below the form is rendered: the error card when the
    search failed, the list when similar requests were found, and the
    card of the empty state when the search succeeded without similar
    requests.  The original request is shown only after a success. *)
Theorem one_card_after_search
    (api : JS.str -> JS.number -> ProtocolSearch.api_outcome)
    (st : ProtocolSearch.state) :
  JS.str_truthy (JS.trim (ProtocolSearch.protocolId st)) = true ->
  let st' := fst (fst (ProtocolSearch.handleSearch api st)) in
  ((ProtocolPage.showsError st' = true /\ ProtocolPage.showsResults st' = false
    /\ ProtocolPage.showsEmpty st' = false
    /\ ProtocolPage.showsOriginal st' = false
    /\ ProtocolSearch.error st' <> [])
   \/ (ProtocolPage.showsError st' = false
       /\ ProtocolPage.showsResults st' = true
       /\ ProtocolPage.showsEmpty st' = false
       /\ ProtocolSearch.error st' = [] /\ ProtocolSearch.results st' <> [])
   \/ (ProtocolPage.showsError st' = false
       /\ ProtocolPage.showsResults st' = false
       /\ ProtocolPage.showsEmpty st' = true
       /\ ProtocolSearch.error st' = [] /\ ProtocolSearch.results st' = [])).
Proof.
  intros Hne. cbv zeta.
  destruct (handleSearch_cases api st Hne)
    as (res & orig & err & note & E & [(-> & Hapi & ->)|(Herr & -> & -> & _ & Hmsg)]);
    rewrite E; simpl.
  - right. unfold ProtocolPage.showsError, ProtocolPage.showsResults,
      ProtocolPage.showsEmpty. simpl.
    destruct res; simpl; [right | left]; repeat split; discriminate.
  - left. unfold ProtocolPage.showsError, ProtocolPage.showsResults,
      ProtocolPage.showsEmpty, ProtocolPage.showsOriginal. simpl.
    destruct err; [congruence|]. now repeat split.
Qed.

Lemma one_card_after_search_witness :
  let st := {| ProtocolSearch.protocolId := JS.lit "23546026306202248";
               ProtocolSearch.topK := JS.Fin 5;
               ProtocolSearch.results := [];
               ProtocolSearch.originalRequest := None;
               ProtocolSearch.loading := false;
               ProtocolSearch.error := [] |} in
  let api := fun (_ : JS.str) (_ : JS.number) =>
    ProtocolSearch.Ok (Some {| ProtocolSearch.original_request := None;
                               ProtocolSearch.similar_requests := Some [] |}) in
  JS.str_truthy (JS.trim (ProtocolSearch.protocolId st)) = true
  /\ ProtocolPage.showsEmpty (fst (fst (ProtocolSearch.handleSearch api st)))
     = true.
Proof.
  cbv zeta. split; [reflexivity|].
  edestruct one_card_after_search as [H|[H|H]];
    [|exfalso|exfalso|exact (proj1 (proj2 (proj2 H)))].
  - reflexivity.
  - destruct H as (_ & _ & _ & _ & H). now apply H.
  - destruct H as (_ & _ & _ & _ & H). now apply H.
Defined.

(** X21. After a failed search the button [Tentar novamente] brings the
    page back to its first state, keeping only the chosen quantity. *)
Theorem retry_after_failure
    (api : JS.str -> JS.number -> ProtocolSearch.api_outcome)
    (st : ProtocolSearch.state) :
  JS.str_truthy (JS.trim (ProtocolSearch.protocolId st)) = true ->
  let st' := fst (fst (ProtocolSearch.handleSearch api st)) in
  ProtocolSearch.error st' <> [] ->
  ProtocolPage.retry st' =
    {| ProtocolSearch.protocolId := [];
       ProtocolSearch.topK := ProtocolSearch.topK st;
       ProtocolSearch.results := [];
       ProtocolSearch.originalRequest := None;
       ProtocolSearch.loading := false;
       ProtocolSearch.error := [] |}.
Proof.
  intros Hne. cbv zeta.
  destruct (handleSearch_cases api st Hne)
    as (res & orig & err & note & E & [(-> & Hapi & ->)|(Herr & -> & -> & _ & Hmsg)]);
    rewrite E; simpl; intros H; [congruence | reflexivity].
Qed.

Lemma retry_after_failure_witness :
  let st := {| ProtocolSearch.protocolId := JS.lit "60110003084201855";
               ProtocolSearch.topK := JS.Fin 7;
               ProtocolSearch.results := [];
               ProtocolSearch.originalRequest := None;
               ProtocolSearch.loading := false;
               ProtocolSearch.error := [] |} in
  let api := fun (_ : JS.str) (_ : JS.number) =>
               ProtocolSearch.HttpError 404 None in
  ProtocolPage.retry (fst (fst (ProtocolSearch.handleSearch api st)))
  = {| ProtocolSearch.protocolId := []; ProtocolSearch.topK := JS.Fin 7;
       ProtocolSearch.results := []; ProtocolSearch.originalRequest := None;
       ProtocolSearch.loading := false; ProtocolSearch.error := [] |}.
Proof.
  cbv zeta.
  apply (retry_after_failure (fun _ _ => ProtocolSearch.HttpError 404 None));
    [reflexivity | vm_compute; discriminate].
Defined.

Section SummaryFacts.
Import JS.

Lemma trim_tidy s : trim s <> [] -> tidy (trim s).
Proof.
  intros Hne. destruct (trim s) as [|c r] eqn:E; [congruence|].
  destruct (trim_edges s c r E) as (Hc & init & x & Ex & Hx).
  split; [now exists c, r|]. exists init, x. rewrite <- E. now split.
Qed.

Lemma literal_tidy (t : str) c r init x :
  t = c :: r -> t = init ++ [x] ->
  is_whitespace c = false -> is_whitespace x = false -> tidy t.
Proof. intros -> E Hc Hx. split; [now exists c, r | now exists init, x]. Qed.
End SummaryFacts.

Lemma exists_nonblank (s : JS.str) :
  JS.trim s <> [] -> exists c, In c s /\ JS.is_whitespace c = false.
Proof.
  induction s as [|a s IH]; intros H; [now elim H|].
  destruct (JS.is_whitespace a) eqn:E.
  - destruct IH as (c & Hc & Hw).
    + unfold JS.trim, JS.trimStart in *. simpl in H. now rewrite E in H.
    + exists c. split; [now right | exact Hw].
  - exists a. split; [now left | exact E].
Qed.

Lemma notices_tidy :
  tidy (JS.lit "Resumo não disponível no sistema")
  /\ tidy (JS.lit "Resposta não disponível no sistema").
Proof.
  split.
  - eapply (literal_tidy _ _ _
              (removelast (JS.lit "Resumo não disponível no sistema")) "a"%char);
      reflexivity.
  - eapply (literal_tidy _ _ _
              (removelast (JS.lit "Resposta não disponível no sistema")) "a"%char);
      reflexivity.
Qed.

(** X22. The summary of a request and the description of an appeal are
    never shown blank and never with white space around them: a missing,
    empty or blank text is replaced by the notice of the page, any other
    text is shown trimmed; the alert icon and the grey style go with the
    notice. *)
Theorem shown_text_is_tidy (summary : option JS.str) :
  tidy (ProtocolPage.formatSummary summary)
  /\ tidy (AppealPage.formatResponse summary)
  /\ (ProtocolPage.summaryHasAlert summary = true ->
      ProtocolPage.formatSummary summary
      = JS.lit "Resumo não disponível no sistema"
      /\ ProtocolPage.getSummaryStyle summary <>
         JS.lit "text-sm text-gray-600 leading-relaxed bg-white p-3 rounded border")
  /\ (ProtocolPage.summaryHasAlert summary = false ->
      exists s, summary = Some s
        /\ ProtocolPage.formatSummary summary = JS.trim s
        /\ AppealPage.formatResponse summary = JS.trim s
        /\ exists c, In c s /\ JS.is_whitespace c = false).
Proof.
  destruct notices_tidy as [Hn1 Hn2].
  unfold ProtocolPage.formatSummary, AppealPage.formatResponse,
    ProtocolPage.summaryHasAlert, ProtocolPage.getSummaryStyle.
  replace (AppealPage.unavailable summary)
    with (ProtocolPage.unavailable summary) by reflexivity.
  destruct (ProtocolPage.unavailable summary) eqn:Eu.
  - split; [exact Hn1|]. split; [exact Hn2|]. split.
    + intros _. split; [reflexivity | discriminate].
    + discriminate.
  - unfold ProtocolPage.unavailable in Eu.
    destruct summary as [s|]; [|discriminate].
    apply orb_false_iff in Eu. destruct Eu as [_ Et].
    assert (Hne : JS.trim s <> [])
      by (destruct (JS.trim s); [discriminate | discriminate]).
    split; [now apply trim_tidy|]. split; [now apply trim_tidy|].
    split; [discriminate|]. intros _. exists s.
    repeat split. now apply exists_nonblank.
Qed.

(** X23. The lookup of an appeal by an id that is not blank makes exactly
    one call, with the trimmed id, shows one toast and ends with loading
    off and the expanded responses untouched.  A well-formed reply fills
    the page and leaves no error; anything else leaves an error, no
    original appeal and an empty list, and status 404 names the id in the
    error. *)
Theorem appeal_search_outcome
    (api : JS.str -> JS.number -> AppealPage.api_outcome)
    (st : AppealPage.state) :
  JS.str_truthy (JS.trim (AppealPage.appealId st)) = true ->
  exists st' note,
    AppealPage.handleSearch api st =
      (st', [note],
       [AppealPage.FindSimilarAppeals
          (JS.trim (AppealPage.appealId st)) (AppealPage.topK st)])
    /\ AppealPage.loading st' = false
    /\ AppealPage.expandedResponses st' = AppealPage.expandedResponses st
    /\ ((AppealPage.error st' = []
         /\ api (JS.trim (AppealPage.appealId st)) (AppealPage.topK st)
            = AppealPage.Ok (Some
                {| AppealPage.original_appeal := AppealPage.originalAppeal st';
                   AppealPage.similar_appeals :=
                     Some (AppealPage.results st') |}))
        \/ (AppealPage.error st' <> []
            /\ AppealPage.results st' = []
            /\ AppealPage.originalAppeal st' = None
            /\ (exists msg, note = ToastError msg)
            /\ (forall detail,
                  api (JS.trim (AppealPage.appealId st)) (AppealPage.topK st)
                  = AppealPage.HttpError 404 detail ->
                  AppealPage.error st' =
                  JS.lit "Recurso com ID '" ++ AppealPage.appealId st
                  ++ JS.lit "' não encontrado na base de dados"))).
Proof.
  intros Hne; unfold AppealPage.handleSearch; rewrite Hne.
  simpl negb. cbv iota.
  destruct (api (JS.trim (AppealPage.appealId st)) (AppealPage.topK st))
    as [[[orig [sims|]]|]|status detail|] eqn:E.
  - eexists _, _. split; [reflexivity|]. simpl. repeat split.
    left. split; reflexivity.
  - eexists _, _. split; [reflexivity|]. simpl. repeat split.
    right. split; [discriminate|]. repeat split; eauto; discriminate.
  - eexists _, _. split; [reflexivity|]. simpl. repeat split.
    right. split; [discriminate|]. repeat split; eauto; discriminate.
  - destruct (Z.eqb_spec status 404) as [->|Hs].
    + eexists _, _. split; [reflexivity|]. simpl. repeat split.
      right. split; [discriminate|]. repeat split; eauto.
    + eexists _, _. split; [reflexivity|]. simpl. repeat split.
      right. split; [discriminate|]. repeat split; eauto.
      intros d Hd. congruence.
  - eexists _, _. split; [reflexivity|]. simpl. repeat split.
    right. split; [discriminate|]. repeat split; eauto; discriminate.
Qed.

Lemma appeal_search_outcome_witness :
  let st := {| AppealPage.appealId := JS.lit " 4288666 ";
               AppealPage.topK := JS.Fin 5;
               AppealPage.results := [];
               AppealPage.originalAppeal := None;
               AppealPage.loading := false;
               AppealPage.error := [];
               AppealPage.expandedResponses := ∅ |} in
  JS.str_truthy (JS.trim (AppealPage.appealId st)) = true
  /\ exists st' note,
       AppealPage.handleSearch (fun _ _ => AppealPage.HttpError 404 None) st
       = (st', [note],
          [AppealPage.FindSimilarAppeals (JS.lit "4288666") (JS.Fin 5)])
       /\ AppealPage.loading st' = false.
Proof.
  cbv zeta. split; [reflexivity|].
  edestruct (appeal_search_outcome (fun _ _ => AppealPage.HttpError 404 None))
    as (st' & note & E & Hl & _); [|exists st', note; split; [exact E | exact Hl]].
  reflexivity.
Defined.

(** X24. The dashboard never shows a partial reload: loading is off after
    [loadDashboardData] in every case, the three blocks of data are
    replaced together when all three calls succeed, and when any of them
    fails all three keep what they held and one error toast is shown. *)
Theorem dashboard_all_or_nothing {Health Info Minuta : Type}
    (health : option Health) (info : option Info) (minuta : option Minuta)
    (st : DashboardPage.state Health Info Minuta) :
  let st' := fst (DashboardPage.loadDashboardData _ _ _ health info minuta st) in
  let toasts :=
    snd (DashboardPage.loadDashboardData _ _ _ health info minuta st) in
  DashboardPage.loading _ _ _ st' = false
  /\ ((is_Some health /\ is_Some info /\ is_Some minuta
       /\ DashboardPage.healthData _ _ _ st' = health
       /\ DashboardPage.appInfo _ _ _ st' = info
       /\ DashboardPage.minutaStatus _ _ _ st' = minuta
       /\ toasts = [])
      \/ ((health = None \/ info = None \/ minuta = None)
          /\ DashboardPage.healthData _ _ _ st'
             = DashboardPage.healthData _ _ _ st
          /\ DashboardPage.appInfo _ _ _ st' = DashboardPage.appInfo _ _ _ st
          /\ DashboardPage.minutaStatus _ _ _ st'
             = DashboardPage.minutaStatus _ _ _ st
          /\ toasts = [ToastError (JS.lit "Erro ao carregar dados do sistema")])).
Proof.
  cbv zeta. unfold DashboardPage.loadDashboardData.
  destruct health as [h|], info as [i|], minuta as [m|]; simpl;
    (split; [reflexivity|]);
    first [ left; repeat split; eauto; fail
          | right; split; [tauto | repeat split] ].
Qed.

(** X25. The menu and the router agree: every entry of the navigation
    leads to a page of its own, every page has an entry, any other value
    of the current page shows the dashboard, and choosing an entry closes
    the mobile menu. *)
Theorem navigation_matches_router (pageId : string) (sh : AppShell.shell)
    (p : AppShell.page) :
  NoDup (map (fun item => AppShell.renderCurrentPage (fst item))
             AppShell.navigation)
  /\ (exists item, In item AppShell.navigation
        /\ AppShell.renderCurrentPage (fst item) = p)
  /\ (~ In pageId (map fst AppShell.navigation) ->
      AppShell.renderCurrentPage pageId = AppShell.Dashboard)
  /\ AppShell.renderCurrentPage
       (AppShell.currentPage (AppShell.handleNavClick pageId sh))
     = AppShell.renderCurrentPage pageId
  /\ AppShell.isMobileMenuOpen (AppShell.handleNavClick pageId sh) = false.
Proof.
  split; [|split; [|split; [|split]]].
  - simpl. repeat (constructor; [rewrite list_elem_of_In; simpl;
                                 intuition discriminate|]). constructor.
  - destruct p;
      [exists ("dashboard", "Dashboard")%string
      |exists ("analysis", "Análise de Recursos")%string
      |exists ("protocol", "Busca por Protocolo")%string
      |exists ("appeal", "Busca por Recurso")%string];
      (split; [simpl; tauto | reflexivity]).
  - intros Hout. unfold AppShell.renderCurrentPage.
    repeat match goal with
    | |- context [String.eqb pageId ?k] =>
        destruct (String.eqb_spec pageId k);
          [exfalso; apply Hout; subst; simpl; tauto|]
    end. reflexivity.
  - reflexivity.
  - reflexivity.
Qed.
